(** * tbls schema merge: identifier model, join extraction, deduplication

    A shallow embedding of [schema/identifier.go], [schema/sqlparser.go] and
    [schema/merge.go], together with the properties of the merge
    specification that were checked against them.

    Modelling conventions.
    - A Go [string] is a [string]: one [ascii] per byte.  The functions of
      Go's [strings] and [regexp] packages that the code calls are written
      out in the modules [Strings] and [Regexp].  Their case mapping, space
      classes and character classes are those of the ASCII range, where one
      byte is one rune; bytes above 127 are letters of no case and no space.
    - A Go [int] that may be [-1] is a [Z]; lengths and counters are [nat].
    - A pointer to a struct is the struct; a [nil] slice is the empty list.
    - The [seen] map of [DeduplicateRelations] is a [gmap]; the order in
      which Go ranges over it is a parameter of the model. *)

From Stdlib Require Import Ascii String ZArith Lia DecimalString.
From stdpp Require Import base option list gmap strings.

Set Warnings "-register-all".

Local Open Scope Z_scope.
Local Open Scope nat_scope.

(** ** Go's [strings] package *)

Module Strings.

Notation "s1 ++ s2" := (String.append s1 s2) : string_scope.

Definition byte_eqb (a b : ascii) : bool := Ascii.eqb a b.

(** [len(s)] *)
Definition len (s : string) : nat := String.length s.

(** [s[i:]] and [s[:i]] *)
Fixpoint slice_from (i : nat) (s : string) : string :=
  match i, s with
  | O, _ => s
  | S i', String _ s' => slice_from i' s'
  | S _, EmptyString => EmptyString
  end.

Fixpoint slice_to (i : nat) (s : string) : string :=
  match i, s with
  | O, _ => EmptyString
  | S i', String c s' => String c (slice_to i' s')
  | S _, EmptyString => EmptyString
  end.

Fixpoint HasPrefix (s prefix : string) {struct prefix} : bool :=
  match prefix, s with
  | EmptyString, _ => true
  | String p prefix', String c s' => byte_eqb c p && HasPrefix s' prefix'
  | String _ _, EmptyString => false
  end.

Definition HasSuffix (s suffix : string) : bool :=
  (len suffix <=? len s) && String.eqb (slice_from (len s - len suffix) s) suffix.

(** [Contains] reports whether [substr] is within [s]. *)
Fixpoint Contains (s substr : string) : bool :=
  HasPrefix s substr ||
  match s with
  | EmptyString => false
  | String _ s' => Contains s' substr
  end.

(** [LastIndex] is the index of the last instance of [substr] in [s],
    or [-1].  [at_] is the index of the first byte of [s]. *)
Fixpoint LastIndex_from (at_ : Z) (s substr : string) : Z :=
  match s with
  | EmptyString => if HasPrefix s substr then at_ else (-1)%Z
  | String _ s' =>
      let later := LastIndex_from (at_ + 1)%Z s' substr in
      if (0 <=? later)%Z then later
      else if HasPrefix s substr then at_ else (-1)%Z
  end.

Definition LastIndex (s substr : string) : Z := LastIndex_from 0%Z s substr.

(** The [asciiSpace] table of [TrimSpace]. *)
Definition isSpace (c : ascii) : bool :=
  match nat_of_ascii c with
  | 9 | 10 | 11 | 12 | 13 | 32 => true
  | _ => false
  end.

Fixpoint TrimLeftFunc (f : ascii -> bool) (s : string) : string :=
  match s with
  | EmptyString => EmptyString
  | String c s' => if f c then TrimLeftFunc f s' else s
  end.

Fixpoint TrimRightFunc (f : ascii -> bool) (s : string) : string :=
  match s with
  | EmptyString => EmptyString
  | String c s' =>
      match TrimRightFunc f s' with
      | EmptyString => if f c then EmptyString else String c EmptyString
      | kept => String c kept
      end
  end.

Definition TrimFunc (f : ascii -> bool) (s : string) : string :=
  TrimRightFunc f (TrimLeftFunc f s).

Definition TrimSpace (s : string) : string := TrimFunc isSpace s.

Fixpoint ContainsByte (cutset : string) (c : ascii) : bool :=
  match cutset with
  | EmptyString => false
  | String d cutset' => byte_eqb c d || ContainsByte cutset' c
  end.

(** [Trim(s, cutset)] *)
Definition Trim (s cutset : string) : string :=
  match s, cutset with
  | EmptyString, _ | _, EmptyString => s
  | _, _ => TrimFunc (ContainsByte cutset) s
  end.

Definition TrimSuffix (s suffix : string) : string :=
  if HasSuffix s suffix then slice_to (len s - len suffix) s else s.

Definition upperByte (c : ascii) : ascii :=
  let n := nat_of_ascii c in
  if (97 <=? n) && (n <=? 122) then ascii_of_nat (n - 32) else c.

Fixpoint ToUpper (s : string) : string :=
  match s with
  | EmptyString => EmptyString
  | String c s' => String (upperByte c) (ToUpper s')
  end.

Fixpoint Join (elems : list string) (sep : string) : string :=
  match elems with
  | [] => EmptyString
  | [e] => e
  | e :: rest => (e ++ sep ++ Join rest sep)%string
  end.

(** [explode]: one string per byte, the result of splitting on the empty
    separator. *)
Fixpoint explode (s : string) : list string :=
  match s with
  | EmptyString => []
  | String c s' => String c EmptyString :: explode s'
  end.

(** [Split] for a non-empty separator.  [skip] bytes of [s] belong to a
    separator that was found already; the head of the result is the piece
    under construction. *)
Fixpoint genSplit (sep : string) (skip : nat) (s : string) : list string :=
  match s with
  | EmptyString => [EmptyString]
  | String c s' =>
      match skip with
      | S skip' => genSplit sep skip' s'
      | O =>
          if HasPrefix s sep then EmptyString :: genSplit sep (len sep - 1) s'
          else
            match genSplit sep 0 s' with
            | piece :: pieces => String c piece :: pieces
            | [] => [String c EmptyString]
            end
      end
  end.

Definition Split (s sep : string) : list string :=
  match sep with
  | EmptyString => explode s
  | _ => genSplit sep 0 s
  end.

(** [ReplaceAll] for a non-empty [old]: non-overlapping instances, from
    the left. *)
Fixpoint replaceFrom (old new : string) (skip : nat) (s : string) : string :=
  match s with
  | EmptyString => EmptyString
  | String c s' =>
      match skip with
      | S skip' => replaceFrom old new skip' s'
      | O =>
          if HasPrefix s old
          then (new ++ replaceFrom old new (len old - 1) s')%string
          else String c (replaceFrom old new 0 s')
      end
  end.

(** For an empty [old], [new] goes in front of the string and after every
    byte. *)
Fixpoint intersperse (new : string) (s : string) : string :=
  match s with
  | EmptyString => new
  | String c s' => (new ++ String c (intersperse new s'))%string
  end.

Definition ReplaceAll (s old new : string) : string :=
  if String.eqb old new then s
  else
    match old with
    | EmptyString => intersperse new s
    | _ => replaceFrom old new 0 s
    end.

End Strings.

(** ** [schema/identifier.go] *)

(** A struct is a record in a module of its name, so that [Table.Name] and
    [Relation.Table] read as in the source. *)
Module QualifiedName.
Record t := mk {
  Database : string;
  Schema : string;
  Table : string
}.
End QualifiedName.

Definition NormalizeBrackets (identifier : string) : string :=
  Strings.ReplaceAll (Strings.ReplaceAll identifier "[" "") "]" "".

Definition ParseQualifiedName (fullName : string) : QualifiedName.t :=
  let normalized := NormalizeBrackets fullName in
  let parts := Strings.Split normalized "." in
  let part i := nth i parts EmptyString in
  match length parts with
  | 1 => QualifiedName.mk "" "" (part 0)
  | 2 => QualifiedName.mk "" (part 0) (part 1)
  | 3 => QualifiedName.mk (part 0) (part 1) (part 2)
  | n =>
      if 3 <? n
      then QualifiedName.mk (part (n - 3)) (part (n - 2)) (part (n - 1))
      else QualifiedName.mk "" "" ""
  end.

Definition BracketIdentifier (identifier : string) : string :=
  let identifier := Strings.TrimSpace identifier in
  if String.eqb identifier "" then identifier
  else if Strings.HasPrefix identifier "[" && Strings.HasSuffix identifier "]"
  then identifier
  else ("[" ++ identifier ++ "]")%string.

Definition BuildQualifiedName (table schema database : string)
    (useBrackets : bool) : string :=
  let parts : list string := [] in
  let parts :=
    if negb (String.eqb database "")
    then if useBrackets then parts ++ [BracketIdentifier database]
         else parts ++ [database]
    else parts in
  let parts :=
    if negb (String.eqb schema "")
    then if useBrackets then parts ++ [BracketIdentifier schema]
         else parts ++ [schema]
    else parts in
  let parts :=
    if negb (String.eqb table "")
    then if useBrackets then parts ++ [BracketIdentifier table]
         else parts ++ [table]
    else parts in
  Strings.Join parts ".".

Definition StandardizeTableName (tableName defaultDB defaultSchema : string)
    (useBrackets : bool) : string :=
  if String.eqb tableName "" then tableName
  else
    let parsed := ParseQualifiedName tableName in
    let db := if String.eqb (QualifiedName.Database parsed) "" then defaultDB
              else QualifiedName.Database parsed in
    let schema := if String.eqb (QualifiedName.Schema parsed) "" then defaultSchema
                  else QualifiedName.Schema parsed in
    let table := QualifiedName.Table parsed in
    BuildQualifiedName table schema db useBrackets.

Definition ExtractDatabaseName (filepath : string) : string :=
  let filename := filepath in
  let filename :=
    let idx := Strings.LastIndex filename "/" in
    if (0 <=? idx)%Z then Strings.slice_from (Z.to_nat (idx + 1)) filename
    else filename in
  let filename :=
    let idx := Strings.LastIndex filename "\" in
    if (0 <=? idx)%Z then Strings.slice_from (Z.to_nat (idx + 1)) filename
    else filename in
  let filename :=
    let idx := Strings.LastIndex filename "." in
    if (0 <=? idx)%Z then Strings.slice_to (Z.to_nat idx) filename
    else filename in
  let filename := Strings.TrimSuffix filename "_schema" in
  let filename := Strings.TrimSuffix filename "-schema" in
  Strings.ToUpper filename.

(** ** Go's [regexp] package

    The fragment of the RE2 syntax that the three patterns of
    [sqlparser.go] are written in: byte classes, concatenation, ordered
    alternation, the greedy [?], the repetitions [*], [+] and [+?] of a
    byte class, capture groups and [$].  Matching is leftmost-first: of
    the matches that start at the leftmost possible byte, the one a
    backtracking search meets first. *)

Module Regexp.

Inductive regex : Type :=
| Empty
| Class (p : ascii -> bool)
| Cat (r1 r2 : regex)
| Alt (r1 r2 : regex)
| Quest (r : regex)
| Star (p : ascii -> bool)
| Plus (p : ascii -> bool)
| LazyPlus (p : ascii -> bool)
| Capture (i : nat) (r : regex)
| EndText.

Fixpoint cat (rs : list regex) : regex :=
  match rs with
  | [] => Empty
  | [r] => r
  | r :: rs' => Cat r (cat rs')
  end.

Fixpoint alt (rs : list regex) : regex :=
  match rs with
  | [] => Empty
  | [r] => r
  | r :: rs' => Alt r (alt rs')
  end.

Definition byte (c : ascii) : regex := Class (Strings.byte_eqb c).

(** A literal under the flag [(?i)]. *)
Definition foldByte (c : ascii) : regex :=
  Class (fun b => Strings.byte_eqb (Strings.upperByte b) (Strings.upperByte c)).

Fixpoint foldLit (s : string) : regex :=
  match s with
  | EmptyString => Empty
  | String c EmptyString => foldByte c
  | String c s' => Cat (foldByte c) (foldLit s')
  end.

(** [\s] is [[\t\n\f\r ]] and [\w] is [[0-9A-Za-z_]]. *)
Definition perlSpace (c : ascii) : bool :=
  match nat_of_ascii c with
  | 9 | 10 | 12 | 13 | 32 => true
  | _ => false
  end.

Definition perlWord (c : ascii) : bool :=
  let n := nat_of_ascii c in
  ((48 <=? n) && (n <=? 57)) || ((65 <=? n) && (n <=? 90))
  || ((97 <=? n) && (n <=? 122)) || (n =? 95).

(** The bytes of [s] before its suffix [rest]. *)
Definition consumed (s rest : string) : string :=
  Strings.slice_to (Strings.len s - Strings.len rest) s.

Section Backtrack.
Context {A : Type}.

(** What follows a partial match: the text left and the groups so far. *)
Definition cont : Type := string -> list string -> option A.

Fixpoint greedy (p : ascii -> bool) (s : string) (caps : list string)
    (k : cont) : option A :=
  match s with
  | String c s' =>
      if p c then
        match greedy p s' caps k with
        | Some a => Some a
        | None => k s caps
        end
      else k s caps
  | EmptyString => k s caps
  end.

Fixpoint lazy (p : ascii -> bool) (s : string) (caps : list string)
    (k : cont) : option A :=
  match k s caps with
  | Some a => Some a
  | None =>
      match s with
      | String c s' => if p c then lazy p s' caps k else None
      | EmptyString => None
      end
  end.

Fixpoint run (r : regex) (s : string) (caps : list string) (k : cont)
    : option A :=
  match r with
  | Empty => k s caps
  | Class p =>
      match s with
      | String c s' => if p c then k s' caps else None
      | EmptyString => None
      end
  | Cat r1 r2 => run r1 s caps (fun s' caps' => run r2 s' caps' k)
  | Alt r1 r2 =>
      match run r1 s caps k with
      | Some a => Some a
      | None => run r2 s caps k
      end
  | Quest r1 =>
      match run r1 s caps k with
      | Some a => Some a
      | None => k s caps
      end
  | Star p => greedy p s caps k
  | Plus p =>
      match s with
      | String c s' => if p c then greedy p s' caps k else None
      | EmptyString => None
      end
  | LazyPlus p =>
      match s with
      | String c s' => if p c then lazy p s' caps k else None
      | EmptyString => None
      end
  | Capture i r1 =>
      run r1 s caps (fun s' caps' => k s' (<[i := consumed s s']> caps'))
  | EndText =>
      match s with
      | EmptyString => k s caps
      | String _ _ => None
      end
  end.
End Backtrack.

(** A compiled pattern: the expression and the number of its groups. *)
Record Regexp := MustCompile { expr : regex; NumSubexp : nat }.

(** The first-met match that starts at the first byte of [s]: the text
    after it, and the matched text followed by the text of each group. *)
Definition matchAt (re : Regexp) (s : string) : option (string * list string) :=
  run (expr re) s (replicate (S (NumSubexp re)) EmptyString)
    (fun rest caps => Some (rest, <[0 := consumed s rest]> caps)).

(** [FindAllStringSubmatch(s, -1)].  [skip] bytes of [s] belong to the
    match delivered last; [adjacent] says that this match ends where [s]
    (after the skipped bytes) begins, where an empty match is not
    delivered. *)
Fixpoint allMatches (re : Regexp) (skip : nat) (adjacent : bool) (s : string)
    : list (list string) :=
  match skip, s with
  | S skip', String _ s' => allMatches re skip' adjacent s'
  | S _, EmptyString => []
  | O, _ =>
      match matchAt re s with
      | Some (rest, m) =>
          match Strings.len s - Strings.len rest, s with
          | O, String _ s' =>
              (if adjacent then [] else [m]) ++ allMatches re 0 false s'
          | O, EmptyString => if adjacent then [] else [m]
          | S width', String _ s' => m :: allMatches re width' true s'
          | S _, EmptyString => [m]
          end
      | None =>
          match s with
          | String _ s' => allMatches re 0 false s'
          | EmptyString => []
          end
      end
  end.

Definition FindAllStringSubmatch (re : Regexp) (s : string) : list (list string) :=
  allMatches re 0 false s.

(** [ReplaceAllString(src, repl)] for a template [repl] without [$],
    which is copied as it is. *)
Fixpoint replaceAll (re : Regexp) (repl : string) (skip : nat)
    (adjacent : bool) (src : string) : string :=
  match skip, src with
  | S skip', String _ src' => replaceAll re repl skip' adjacent src'
  | S _, EmptyString => EmptyString
  | O, _ =>
      match matchAt re src with
      | Some (rest, _) =>
          match Strings.len src - Strings.len rest, src with
          | O, String c src' =>
              ((if adjacent then EmptyString else repl)
               ++ String c (replaceAll re repl 0 false src'))%string
          | O, EmptyString => if adjacent then EmptyString else repl
          | S width', String _ src' =>
              (repl ++ replaceAll re repl width' true src')%string
          | S _, EmptyString => repl
          end
      | None =>
          match src with
          | String c src' => String c (replaceAll re repl 0 false src')
          | EmptyString => EmptyString
          end
      end
  end.

Definition ReplaceAllString (re : Regexp) (src repl : string) : string :=
  replaceAll re repl 0 false src.

End Regexp.

(** ** The schema types

    [schema/schema.go] declares them; these are the fields that the three
    files read or write.  The remaining fields of a struct are carried
    along by the struct copies of [merge.go] and are not modelled.  A field
    named like a keyword or like its own type has an underscore added
    ([Type_], [Cardinality_], [Driver_]). *)

(** Modelled from the spec: the enumeration [Cardinality] of
    [schema/schema.go], of which the data model names [ExactlyOne],
    [ZeroOrOne] and [ZeroOrMore] and leaves the rest open. *)
Inductive Cardinality : Type :=
| ExactlyOne
| ZeroOrOne
| ZeroOrMore
| UnknownCardinality.

Module Column.
Record t := mk { Name : string }.
End Column.

Module Constraint.
Record t := mk {
  Table : option string;
  ReferencedTable : option string
}.
End Constraint.

Module Index.
Record t := mk { Table : option string }.
End Index.

Module Table.
Inductive t := mk {
  Name : string;
  Type_ : string;
  Def : string;
  ReferencedTables : list t;
  Constraints : list Constraint.t;
  Indexes : list Index.t
}.
(** [&Table{Name: name}] *)
Definition named (name : string) : t := mk name "" "" [] [] [].
End Table.

Module Relation.
Record t := mk {
  Table : Table.t;
  Columns : list Column.t;
  Cardinality_ : Cardinality;
  ParentTable : Table.t;
  ParentColumns : list Column.t;
  ParentCardinality : Cardinality;
  Def : string;
  Virtual : bool
}.
End Relation.

Module Function.
Record t := mk { Name : string }.
End Function.

Module DriverMeta.
Record t := mk { CurrentSchema : string }.
End DriverMeta.

Module Driver.
Record t := mk { Meta : option DriverMeta.t }.
End Driver.

Module Schema.
Record t := mk {
  Name : string;
  Desc : string;
  Tables : list Table.t;
  Relations : list Relation.t;
  Functions : list Function.t;
  Driver_ : option Driver.t
}.
End Schema.

(** ** [schema/sqlparser.go] *)

Module JoinRelation.
Record t := mk {
  FromTable : string;
  FromColumns : list string;
  ToTable : string;
  ToColumns : list string;
  JoinType : string;
  OnCondition : string
}.
End JoinRelation.

Definition LF : string := String "010"%char EmptyString.
Definition CR : string := String "013"%char EmptyString.

Section Patterns.
Import Regexp.

Definition spaces1 : regex := Plus perlSpace.

(** [(?i)(?:LEFT\s+|RIGHT\s+|INNER\s+|OUTER\s+|CROSS\s+)?(?:OUTER\s+)?JOIN\s+]
    [([\[\w\]\.]+)]
    [\s+(?:AS\s+)?([\w]+)]
    [\s+ON\s+([^;]+?)]
    [(?:\s+WHERE|\s+GROUP|\s+ORDER|\s+HAVING|\s+UNION|\s+LEFT|\s+RIGHT|\s+INNER|\s+JOIN|;|\s*$)] *)
Definition joinPattern : Regexp :=
  MustCompile
    (cat
       [ Quest (alt [ Cat (foldLit "LEFT") spaces1;
                      Cat (foldLit "RIGHT") spaces1;
                      Cat (foldLit "INNER") spaces1;
                      Cat (foldLit "OUTER") spaces1;
                      Cat (foldLit "CROSS") spaces1 ]);
         Quest (Cat (foldLit "OUTER") spaces1);
         foldLit "JOIN"; spaces1;
         Capture 1
           (Plus (fun c => Strings.ContainsByte "[]." c || perlWord c));
         spaces1; Quest (Cat (foldLit "AS") spaces1);
         Capture 2 (Plus perlWord);
         spaces1; foldLit "ON"; spaces1;
         Capture 3 (LazyPlus (fun c => negb (Strings.byte_eqb c ";")));
         alt [ Cat spaces1 (foldLit "WHERE");
               Cat spaces1 (foldLit "GROUP");
               Cat spaces1 (foldLit "ORDER");
               Cat spaces1 (foldLit "HAVING");
               Cat spaces1 (foldLit "UNION");
               Cat spaces1 (foldLit "LEFT");
               Cat spaces1 (foldLit "RIGHT");
               Cat spaces1 (foldLit "INNER");
               Cat spaces1 (foldLit "JOIN");
               byte ";";
               Cat (Star perlSpace) EndText ] ])
    3.

(** [\[?[\w]+\]?] *)
Definition bracketedWord : regex :=
  cat [ Quest (byte "["); Plus perlWord; Quest (byte "]") ].

(** [(\[?[\w]+\]?)\.(\[?\w+\]?)\s*=\s*(\[?[\w]+\]?)\.(\[?\w+\]?)] *)
Definition columnPattern : Regexp :=
  MustCompile
    (cat
       [ Capture 1 bracketedWord; byte "."; Capture 2 bracketedWord;
         Star perlSpace; byte "="; Star perlSpace;
         Capture 3 bracketedWord; byte "."; Capture 4 bracketedWord ])
    4.

(** [\s+] *)
Definition spacesPattern : Regexp := MustCompile spaces1 0.
End Patterns.

(** [match[i]] of a submatch slice that is long enough *)
Definition sub (m : list string) (i : nat) : string := nth i m EmptyString.

Definition joinTypeOf (match0 : string) : string :=
  let matchUpper := Strings.ToUpper match0 in
  if Strings.Contains matchUpper "LEFT" then "LEFT"
  else if Strings.Contains matchUpper "RIGHT" then "RIGHT"
  else if Strings.Contains matchUpper "FULL" then "FULL"
  else "INNER".

(** The body of the loop over [colMatches]. *)
Definition joinOfColumns (sourceTable joinedTableStd onCondition : string)
    (m colMatch : list string) : list JoinRelation.t :=
  if length colMatch <? 5 then []
  else
    let leftColumn := NormalizeBrackets (Strings.TrimSpace (sub colMatch 2)) in
    let rightColumn := NormalizeBrackets (Strings.TrimSpace (sub colMatch 4)) in
    let joinType := joinTypeOf (sub m 0) in
    let cleanCondition :=
      Strings.ReplaceAll (Strings.ReplaceAll onCondition LF " ") CR "" in
    let cleanCondition :=
      Strings.TrimSpace
        (Regexp.ReplaceAllString spacesPattern cleanCondition " ") in
    [ JoinRelation.mk sourceTable [leftColumn] joinedTableStd [rightColumn]
        joinType cleanCondition ].

(** The body of the loop over [matches]. *)
Definition joinsOfMatch (sourceTable defaultDB defaultSchema : string)
    (useBrackets : bool) (m : list string) : list JoinRelation.t :=
  if length m <? 4 then []
  else
    let joinedTable := Strings.TrimSpace (sub m 1) in
    let onCondition := Strings.TrimSpace (sub m 3) in
    let joinedTableStd :=
      StandardizeTableName joinedTable defaultDB defaultSchema useBrackets in
    let colMatches := Regexp.FindAllStringSubmatch columnPattern onCondition in
    flat_map (joinOfColumns sourceTable joinedTableStd onCondition m) colMatches.

Definition ExtractJoinsFromSQL (sqlDef sourceTable defaultDB defaultSchema : string)
    (useBrackets : bool) : list JoinRelation.t :=
  if String.eqb sqlDef "" then []
  else
    let matches := Regexp.FindAllStringSubmatch joinPattern sqlDef in
    flat_map (joinsOfMatch sourceTable defaultDB defaultSchema useBrackets) matches.

Definition cardinalityOf (joinType : string) : Cardinality * Cardinality :=
  if String.eqb joinType "LEFT" then (ZeroOrOne, ZeroOrMore)
  else if String.eqb joinType "RIGHT" then (ZeroOrMore, ZeroOrOne)
  else (ExactlyOne, ZeroOrMore).

(** The body of the loop over [discoveredJoins]. *)
Definition virtualRelation (joinInfo : JoinRelation.t) : Relation.t :=
  let '(cardinality, parentCardinality) :=
    cardinalityOf (JoinRelation.JoinType joinInfo) in
  let def := JoinRelation.OnCondition joinInfo in
  let def :=
    if 100 <? Strings.len def then (Strings.slice_to 100 def ++ "...")%string
    else def in
  let def := ("[" ++ JoinRelation.JoinType joinInfo ++ " JOIN] " ++ def)%string in
  let columns := map Column.mk (JoinRelation.FromColumns joinInfo) in
  let parentColumns := map Column.mk (JoinRelation.ToColumns joinInfo) in
  Relation.mk (Table.named (JoinRelation.FromTable joinInfo)) columns cardinality
    (Table.named (JoinRelation.ToTable joinInfo)) parentColumns
    parentCardinality def true.

Definition relationsOfTable (defaultDB defaultSchema : string)
    (useBrackets : bool) (table : Table.t) : list Relation.t :=
  if negb (String.eqb (Table.Type_ table) "VIEW")
     && negb (String.eqb (Table.Type_ table) "MATERIALIZED VIEW")
     && negb (String.eqb (Table.Type_ table) "BASE TABLE")
  then []
  else if String.eqb (Table.Def table) "" then []
  else
    let tableName := Table.Name table in
    let discoveredJoins :=
      ExtractJoinsFromSQL (Table.Def table) tableName defaultDB defaultSchema
        useBrackets in
    map virtualRelation discoveredJoins.

Definition ExtractRelationsFromDefinitions (tables : list Table.t)
    (defaultDB defaultSchema : string) (useBrackets : bool) : list Relation.t :=
  flat_map (relationsOfTable defaultDB defaultSchema useBrackets) tables.

Module relKey.
Record t := mk {
  table : string;
  columns : string;
  parentTable : string;
  parentCols : string
}.

#[global] Instance eq_dec : EqDecision t.
Proof. solve_decision. Defined.

#[global] Instance countable : Countable t :=
  inj_countable'
    (fun k => (table k, columns k, parentTable k, parentCols k))
    (fun '(a, b, c, d) => mk a b c d)
    (fun k => match k with mk _ _ _ _ => eq_refl end).
End relKey.

Definition keyOf (relation : Relation.t) : relKey.t :=
  let colNames := map Column.Name (Relation.Columns relation) in
  let parentColNames := map Column.Name (Relation.ParentColumns relation) in
  relKey.mk (Table.Name (Relation.Table relation))
    (Strings.Join colNames ",")
    (Table.Name (Relation.ParentTable relation))
    (Strings.Join parentColNames ",").

(** The body of the loop that fills [seen]. *)
Definition seenStep (seen : gmap relKey.t Relation.t) (relation : Relation.t)
    : gmap relKey.t Relation.t :=
  let key := keyOf relation in
  match seen !! key with
  | None => <[key := relation]> seen
  | Some existing =>
      if negb (Relation.Virtual relation) && Relation.Virtual existing
      then <[key := relation]> seen
      else seen
  end.

Definition seenOf (relations : list Relation.t) : gmap relKey.t Relation.t :=
  foldl seenStep ∅ relations.

(** The order in which [range] visits a map is not specified: it is given
    by [rangeOrder], which may be any enumeration of the entries. *)
Definition RangeOrder : Type :=
  gmap relKey.t Relation.t -> list (relKey.t * Relation.t).

Definition rangeOrderOk (rangeOrder : RangeOrder) : Prop :=
  forall seen, rangeOrder seen ≡ₚ map_to_list seen.

Definition DeduplicateRelations (rangeOrder : RangeOrder)
    (relations : list Relation.t) : list Relation.t :=
  let seen := seenOf relations in
  foldl (fun result entry => result ++ [entry.2]) [] (rangeOrder seen).

(** ** [schema/merge.go] *)

Module MergeConfig.
Record t := mk {
  Name : string;
  Description : string;
  DefaultSchema : string;
  UseBrackets : bool;
  ExtractViewRelations : bool;
  DatabaseMapping : gmap string string
}.
End MergeConfig.

Module MergeStats.
Record t := mk {
  TotalTables : nat;
  TotalViews : nat;
  TotalRelations : nat;
  TotalFunctions : nat;
  Databases : list string;
  CrossDBRelations : nat;
  ExtractedRelations : nat;
  DeduplicatedCount : nat
}.
End MergeStats.

(** An [error] is its message; [%w] appends the message of the wrapped
    error and [%d] prints a length in decimal. *)
Definition error : Type := string.

Definition itoa (n : nat) : string := NilZero.string_of_uint (Nat.to_uint n).

Definition QUOTE : string := String "034"%char EmptyString.

Definition updateConstraint (dbPrefix schemaName : string) (useBrackets : bool)
    (constraint : Constraint.t) : Constraint.t :=
  let c := constraint in
  let c :=
    match Constraint.Table c with
    | Some name =>
        let stdName := StandardizeTableName name dbPrefix schemaName useBrackets in
        Constraint.mk (Some stdName) (Constraint.ReferencedTable c)
    | None => c
    end in
  match Constraint.ReferencedTable c with
  | Some name =>
      if negb (String.eqb name "") then
        let refParsed := ParseQualifiedName name in
        let refDB := QualifiedName.Database refParsed in
        let refDB := if String.eqb refDB "" then dbPrefix else refDB in
        let stdName := StandardizeTableName name refDB schemaName useBrackets in
        Constraint.mk (Constraint.Table c) (Some stdName)
      else c
  | None => c
  end.

Definition updateIndex (dbPrefix schemaName : string) (useBrackets : bool)
    (index : Index.t) : Index.t :=
  match Index.Table index with
  | Some name =>
      Index.mk (Some (StandardizeTableName name dbPrefix schemaName useBrackets))
  | None => index
  end.

(** The body of the loop of [updateTableNames]. *)
Definition updateTableName (dbPrefix schemaName : string) (useBrackets : bool)
    (table : Table.t) : Table.t :=
  let originalName := Table.Name table in
  let name := StandardizeTableName originalName dbPrefix schemaName useBrackets in
  let referencedTables :=
    if 0 <? length (Table.ReferencedTables table) then
      map (fun ref =>
             Table.named
               (StandardizeTableName (Table.Name ref) dbPrefix schemaName
                  useBrackets))
          (Table.ReferencedTables table)
    else Table.ReferencedTables table in
  let constraints :=
    if 0 <? length (Table.Constraints table) then
      map (updateConstraint dbPrefix schemaName useBrackets)
          (Table.Constraints table)
    else Table.Constraints table in
  let indexes :=
    if 0 <? length (Table.Indexes table) then
      map (updateIndex dbPrefix schemaName useBrackets) (Table.Indexes table)
    else Table.Indexes table in
  Table.mk name (Table.Type_ table) (Table.Def table) referencedTables
    constraints indexes.

Definition updateTableNames (tables : list Table.t) (dbPrefix schemaName : string)
    (useBrackets : bool) : list Table.t :=
  map (updateTableName dbPrefix schemaName useBrackets) tables.

(** The body of the loop of [updateRelations]. *)
Definition updateRelation (dbPrefix schemaName : string) (useBrackets : bool)
    (relation : Relation.t) : Relation.t :=
  let r := relation in
  let tableParsed := ParseQualifiedName (Table.Name (Relation.Table r)) in
  let parentParsed := ParseQualifiedName (Table.Name (Relation.ParentTable r)) in
  let tableDB := QualifiedName.Database tableParsed in
  let tableDB := if String.eqb tableDB "" then dbPrefix else tableDB in
  let parentDB := QualifiedName.Database parentParsed in
  let parentDB := if String.eqb parentDB "" then dbPrefix else parentDB in
  Relation.mk
    (Table.named
       (StandardizeTableName (Table.Name (Relation.Table r)) tableDB schemaName
          useBrackets))
    (Relation.Columns r) (Relation.Cardinality_ r)
    (Table.named
       (StandardizeTableName (Table.Name (Relation.ParentTable r)) parentDB
          schemaName useBrackets))
    (Relation.ParentColumns r) (Relation.ParentCardinality r) (Relation.Def r)
    (Relation.Virtual r).

Definition updateRelations (relations : list Relation.t)
    (dbPrefix schemaName : string) (useBrackets : bool) : list Relation.t :=
  map (updateRelation dbPrefix schemaName useBrackets) relations.

Definition updateFunctions (functions : list Function.t)
    (dbPrefix schemaName : string) (useBrackets : bool) : list Function.t :=
  map (fun f =>
         Function.mk
           (StandardizeTableName (Function.Name f) dbPrefix schemaName
              useBrackets))
      functions.

(** The test of the loop that counts cross-database relations. *)
Definition crossesDatabases (rel : Relation.t) : bool :=
  let relDB :=
    QualifiedName.Database (ParseQualifiedName (Table.Name (Relation.Table rel))) in
  let parentDB :=
    QualifiedName.Database
      (ParseQualifiedName (Table.Name (Relation.ParentTable rel))) in
  negb (String.eqb relDB "") && negb (String.eqb parentDB "")
  && negb (String.eqb relDB parentDB).

Definition isView (t : Table.t) : bool :=
  String.eqb (Table.Type_ t) "VIEW"
  || String.eqb (Table.Type_ t) "MATERIALIZED VIEW".

Definition defaultConfig (jsonFiles : list string) : MergeConfig.t :=
  MergeConfig.mk "Combined Schema"
    ("Combined schema from " ++ itoa (length jsonFiles) ++ " databases")%string
    "dbo" true true ∅.

(** The database prefix of a file: its entry in the mapping, or else its
    name. *)
Definition dbPrefixOf (config : MergeConfig.t) (jsonFile : string) : string :=
  match MergeConfig.DatabaseMapping config !! jsonFile with
  | Some mappedName => mappedName
  | None => ExtractDatabaseName jsonFile
  end.

(** The schema name of a document: from its driver metadata, or else the
    default. *)
Definition schemaNameOf (config : MergeConfig.t) (schema : Schema.t) : string :=
  match Schema.Driver_ schema with
  | Some (Driver.mk (Some meta)) =>
      if negb (String.eqb (DriverMeta.CurrentSchema meta) "")
      then Strings.Trim (DriverMeta.CurrentSchema meta) QUOTE
      else MergeConfig.DefaultSchema config
  | _ => MergeConfig.DefaultSchema config
  end.

Section Merge.
(** [LoadSchemaFromJSON] reads the file system and [Schema.Repair] is
    declared in [schema/schema.go]: both are parameters. *)
Variable LoadSchemaFromJSON : string -> error + Schema.t.
Variable Repair : Schema.t -> error + Schema.t.
Variable rangeOrder : RangeOrder.

(** The body of the loop over [jsonFiles]. *)
Definition mergeFile (config : MergeConfig.t)
    (acc : Schema.t * MergeStats.t) (jsonFile : string)
    : error + Schema.t * MergeStats.t :=
  let '(merged, stats) := acc in
  match LoadSchemaFromJSON jsonFile with
  | inl err =>
      inl ("failed to load schema from " ++ jsonFile ++ ": " ++ err)%string
  | inr schema =>
      let dbPrefix := dbPrefixOf config jsonFile in
      let databases := MergeStats.Databases stats ++ [dbPrefix] in
      let schemaName := schemaNameOf config schema in
      let useBrackets := MergeConfig.UseBrackets config in
      let updatedTables :=
        updateTableNames (Schema.Tables schema) dbPrefix schemaName useBrackets in
      let tables := Schema.Tables merged ++ updatedTables in
      let totalTables := MergeStats.TotalTables stats + length updatedTables in
      let totalViews :=
        foldl (fun n t => if isView t then S n else n)
          (MergeStats.TotalViews stats) updatedTables in
      let updatedRelations :=
        updateRelations (Schema.Relations schema) dbPrefix schemaName
          useBrackets in
      let crossDBRelations :=
        foldl (fun n rel => if crossesDatabases rel then S n else n)
          (MergeStats.CrossDBRelations stats) updatedRelations in
      let relations := Schema.Relations merged ++ updatedRelations in
      let totalRelations :=
        MergeStats.TotalRelations stats + length updatedRelations in
      let virtualRels :=
        if MergeConfig.ExtractViewRelations config
        then ExtractRelationsFromDefinitions updatedTables dbPrefix schemaName
               useBrackets
        else [] in
      let relations := relations ++ virtualRels in
      let extractedRelations :=
        MergeStats.ExtractedRelations stats + length virtualRels in
      let updatedFunctions :=
        updateFunctions (Schema.Functions schema) dbPrefix schemaName
          useBrackets in
      let functions := Schema.Functions merged ++ updatedFunctions in
      let totalFunctions :=
        MergeStats.TotalFunctions stats + length updatedFunctions in
      let driver :=
        match Schema.Driver_ merged, Schema.Driver_ schema with
        | None, Some d => Some d
        | d, _ => d
        end in
      inr (Schema.mk (Schema.Name merged) (Schema.Desc merged) tables
             relations functions driver,
           MergeStats.mk totalTables totalViews totalRelations totalFunctions
             databases crossDBRelations extractedRelations
             (MergeStats.DeduplicatedCount stats))
  end.

Fixpoint mergeFiles (config : MergeConfig.t) (acc : Schema.t * MergeStats.t)
    (jsonFiles : list string) : error + Schema.t * MergeStats.t :=
  match jsonFiles with
  | [] => inr acc
  | jsonFile :: rest =>
      match mergeFile config acc jsonFile with
      | inl err => inl err
      | inr acc' => mergeFiles config acc' rest
      end
  end.

Definition MergeSchemas (jsonFiles : list string)
    (config : option MergeConfig.t) : error + Schema.t * MergeStats.t :=
  let config :=
    match config with
    | Some config => config
    | None => defaultConfig jsonFiles
    end in
  let merged :=
    Schema.mk (MergeConfig.Name config) (MergeConfig.Description config)
      [] [] [] None in
  let stats := MergeStats.mk 0 0 0 0 [] 0 0 0 in
  match mergeFiles config (merged, stats) jsonFiles with
  | inl err => inl err
  | inr (merged, stats) =>
      let originalRelationCount := length (Schema.Relations merged) in
      let relations := DeduplicateRelations rangeOrder (Schema.Relations merged) in
      let merged :=
        Schema.mk (Schema.Name merged) (Schema.Desc merged)
          (Schema.Tables merged) relations (Schema.Functions merged)
          (Schema.Driver_ merged) in
      let stats :=
        MergeStats.mk (MergeStats.TotalTables stats)
          (MergeStats.TotalViews stats) (MergeStats.TotalRelations stats)
          (MergeStats.TotalFunctions stats) (MergeStats.Databases stats)
          (MergeStats.CrossDBRelations stats)
          (MergeStats.ExtractedRelations stats)
          (originalRelationCount - length (Schema.Relations merged)) in
      match Repair merged with
      | inl err => inl ("failed to repair merged schema: " ++ err)%string
      | inr merged => inr (merged, stats)
      end
  end.
End Merge.

(** ** The vocabulary of the specification *)

(** The candidates of an identity key, in arrival order. *)
Definition candidates (key : relKey.t) (relations : list Relation.t)
    : list Relation.t :=
  filter (fun r => keyOf r = key) relations.

(** First-seen wins, unless it is virtual and a later candidate is not:
    then the first such candidate replaces it. *)
Definition survivor (cands : list Relation.t) : option Relation.t :=
  match cands with
  | [] => None
  | first :: later =>
      if Relation.Virtual first then
        match List.find (fun r => negb (Relation.Virtual r)) later with
        | Some r => Some r
        | None => Some first
        end
      else Some first
  end.

(** Case-insensitive substring search. *)
Definition sameFold (a b : ascii) : bool :=
  Strings.byte_eqb (Strings.upperByte a) (Strings.upperByte b).

Fixpoint hasPrefixFold (s prefix : string) {struct prefix} : bool :=
  match prefix, s with
  | EmptyString, _ => true
  | String p prefix', String c s' => sameFold c p && hasPrefixFold s' prefix'
  | String _ _, EmptyString => false
  end.

Fixpoint containsFold (s substr : string) : bool :=
  hasPrefixFold s substr ||
  match s with
  | EmptyString => false
  | String _ s' => containsFold s' substr
  end.

(** The join type of a clause, in the precedence of the specification. *)
Definition classify (clause : string) : string :=
  if containsFold clause "LEFT" then "LEFT"
  else if containsFold clause "RIGHT" then "RIGHT"
  else if containsFold clause "FULL" then "FULL"
  else "INNER".

Fixpoint allBytes (p : ascii -> bool) (s : string) : bool :=
  match s with
  | EmptyString => true
  | String c s' => p c && allBytes p s'
  end.

Fixpoint removeBytes (p : ascii -> bool) (s : string) : string :=
  match s with
  | EmptyString => EmptyString
  | String c s' => if p c then removeBytes p s' else String c (removeBytes p s')
  end.

Definition isBracket (c : ascii) : bool :=
  Strings.byte_eqb c "[" || Strings.byte_eqb c "]".

Definition isDot (c : ascii) : bool := Strings.byte_eqb c ".".

(** A string that contains no ['.'], ['['] or [']']. *)
Definition plain (s : string) : bool :=
  allBytes (fun c => negb (isDot c) && negb (isBracket c)) s.

Definition dotFree (s : string) : bool := allBytes (fun c => negb (isDot c)) s.
Definition bracketFree (s : string) : bool :=
  allBytes (fun c => negb (isBracket c)) s.

Definition startsWithSpace (s : string) : bool :=
  match s with
  | String c _ => Strings.isSpace c
  | EmptyString => false
  end.

Fixpoint endsWithSpace (s : string) : bool :=
  match s with
  | EmptyString => false
  | String c EmptyString => Strings.isSpace c
  | String _ s' => endsWithSpace s'
  end.


(** A component that a name can be built from and parsed back to: not
    empty, without ['.'], ['['] and [']'], and without whitespace at
    either end. *)
Definition identifier (s : string) : Prop :=
  s <> EmptyString /\ plain s = true
  /\ startsWithSpace s = false /\ endsWithSpace s = false.

(** How [BuildQualifiedName] writes a component, and how that component
    reads once the brackets are removed. *)
Definition written (useBrackets : bool) (s : string) : string :=
  if useBrackets then BracketIdentifier s else s.

Definition readBack (useBrackets : bool) (s : string) : string :=
  if useBrackets then Strings.TrimSpace s else s.

(** The components of the last three of the parts of a name. *)
Definition lastThree (parts : list string) : QualifiedName.t :=
  match rev parts with
  | [] => QualifiedName.mk "" "" ""
  | [table] => QualifiedName.mk "" "" table
  | [table; schema] => QualifiedName.mk "" schema table
  | table :: schema :: database :: _ => QualifiedName.mk database schema table
  end.


(** A relation whose two sides name different databases. *)
Definition crossDatabase (rel : Relation.t) : Prop :=
  let relDB :=
    QualifiedName.Database
      (ParseQualifiedName (Table.Name (Relation.Table rel))) in
  let parentDB :=
    QualifiedName.Database
      (ParseQualifiedName (Table.Name (Relation.ParentTable rel))) in
  relDB <> EmptyString /\ parentDB <> EmptyString /\ relDB <> parentDB.

#[global] Instance crossDatabase_dec rel : Decision (crossDatabase rel).
Proof. unfold crossDatabase. apply _. Defined.

(** The relations of a source document, standardized as [mergeFile]
    standardizes them. *)
Definition standardizedRelations (config : MergeConfig.t) (jsonFile : string)
    (schema : Schema.t) : list Relation.t :=
  updateRelations (Schema.Relations schema) (dbPrefixOf config jsonFile)
    (schemaNameOf config schema) (MergeConfig.UseBrackets config).

(** The documents that the files of a merge hold. *)
Definition documents (LoadSchemaFromJSON : string -> error + Schema.t)
    (jsonFiles : list string) : list (string * Schema.t) :=
  flat_map
    (fun jsonFile =>
       match LoadSchemaFromJSON jsonFile with
       | inr schema => [(jsonFile, schema)]
       | inl _ => []
       end)
    jsonFiles.

(** ** Test data of the repository *)

(** The relations of [TestDeduplicateRelations]: a foreign key, its
    virtual duplicate and one more virtual relation. *)
Definition ordersCustomers (virtual : bool) : Relation.t :=
  Relation.mk (Table.named "[DV].[dbo].[Orders]") [Column.mk "customer_id"]
    UnknownCardinality (Table.named "[DV].[dbo].[Customers]") [Column.mk "id"]
    UnknownCardinality "" virtual.

Definition ordersProducts : Relation.t :=
  Relation.mk (Table.named "[DV].[dbo].[Orders]") [Column.mk "product_id"]
    UnknownCardinality (Table.named "[DV].[dbo].[Products]") [Column.mk "id"]
    UnknownCardinality "" true.

(** A view whose join key is spread over two equality pairs. *)
Definition compositeView : Table.t :=
  Table.mk "[DV].[dbo].[OrderLines]" "VIEW"
    "SELECT * FROM Orders o JOIN Lines l ON o.id = l.order_id AND o.shop = l.shop"
    [] [] [].

(** Two documents of one table each.  The relation of the first names the
    table of the second, in another database. *)
Definition dvDocument : Schema.t :=
  Schema.mk "dv" ""
    [Table.mk "Orders" "BASE TABLE" "" [] [] []]
    [Relation.mk (Table.named "Orders") [Column.mk "customer_id"] ZeroOrMore
       (Table.named "DM.dbo.Customers") [Column.mk "id"] ExactlyOne
       "FOREIGN KEY (customer_id) REFERENCES Customers (id)" false]
    [] None.

Definition dmDocument : Schema.t :=
  Schema.mk "dm" "" [Table.mk "Customers" "BASE TABLE" "" [] [] []] [] [] None.

Definition twoDocuments (jsonFile : string) : error + Schema.t :=
  if String.eqb jsonFile "dv_schema.json" then inr dvDocument
  else if String.eqb jsonFile "dm_schema.json" then inr dmDocument
  else inl "open: no such file or directory".

(** A document whose view joins a table of another database. *)
Definition viewDocument : Schema.t :=
  Schema.mk "dv" ""
    [Table.mk "OrderView" "VIEW"
       "SELECT * FROM Orders o JOIN DM.dbo.Customers c ON o.customer_id = c.id"
       [] [] []]
    [] [] None.

Definition viewDocuments (jsonFile : string) : error + Schema.t :=
  if String.eqb jsonFile "dv_schema.json" then inr viewDocument
  else if String.eqb jsonFile "dm_schema.json" then inr dmDocument
  else inl "open: no such file or directory".

(** Two texts of [TestExtractJoinsFromSQL], with their line breaks and
    tabs. *)
Definition TAB : string := String "009"%char EmptyString.

Definition sqlLines (lines : list string) : string :=
  foldr (fun line text => (LF ++ TAB ++ TAB ++ TAB ++ TAB ++ line ++ text)%string)
    (LF ++ TAB ++ TAB ++ TAB)%string lines.

Definition simpleInnerJoin : string :=
  sqlLines [ "SELECT * FROM Orders o";
             "INNER JOIN Customers c ON o.customer_id = c.id" ].

Definition multipleJoins : string :=
  sqlLines [ "SELECT * FROM Orders o";
             "INNER JOIN Customers c ON o.customer_id = c.id";
             "LEFT JOIN Products p ON o.product_id = p.id" ].


(** ** [ValidateMergedSchema] of [schema/merge.go] *)

(** An entry of the list under the key [broken_relations]. *)
Module BrokenRelation.
Record t := mk {
  relation : string;
  missing : string;
  virtual : bool
}.
End BrokenRelation.

(** The map that [ValidateMergedSchema] returns, one field per key. *)
Module ValidationResults.
Record t := mk {
  total_tables : nat;
  total_relations : nat;
  virtual_relations : nat;
  fk_relations : nat;
  broken_relations : list BrokenRelation.t;
  missing_tables : list string;
  databases : list string
}.
End ValidationResults.

(** A [map[string]bool] that only ever stores [true] is a set of strings.
    The order in which [range] visits it is a parameter, as for [seen]. *)
Definition SetOrder : Type := gset string -> list string.

Definition setOrderOk (setOrder : SetOrder) : Prop :=
  forall names, setOrder names ≡ₚ elements names.

(** [if db := ParseQualifiedName(name).Database; db != "" { databases[db] = true }] *)
Definition noteDatabase (databases : gset string) (name : string) : gset string :=
  let db := QualifiedName.Database (ParseQualifiedName name) in
  if negb (String.eqb db "") then {[db]} ∪ databases else databases.

(** The body of the loop that builds the table index. *)
Definition indexTable (acc : gset string * gset string) (table : Table.t)
    : gset string * gset string :=
  let '(tableNames, databases) := acc in
  ({[Table.Name table]} ∪ tableNames, noteDatabase databases (Table.Name table)).

(** The body of the loop that counts the relation types. *)
Definition countRelation (acc : nat * nat) (relation : Relation.t) : nat * nat :=
  let '(virtualRelations, fkRelations) := acc in
  if Relation.Virtual relation then (S virtualRelations, fkRelations)
  else (virtualRelations, S fkRelations).

(** The body of the loop that checks the relations. *)
Definition checkRelation (tableNames : gset string)
    (acc : gset string * gset string * list BrokenRelation.t)
    (relation : Relation.t)
    : gset string * gset string * list BrokenRelation.t :=
  let '(databases, missingTables, brokenRelations) := acc in
  let table := Table.Name (Relation.Table relation) in
  let parent := Table.Name (Relation.ParentTable relation) in
  let databases := noteDatabase databases table in
  let databases := noteDatabase databases parent in
  let arrow := (table ++ " -> " ++ parent)%string in
  let '(missingTables, brokenRelations) :=
    if negb (bool_decide (table ∈ tableNames)) then
      ({[table]} ∪ missingTables,
       brokenRelations
       ++ [BrokenRelation.mk arrow table (Relation.Virtual relation)])
    else (missingTables, brokenRelations) in
  let '(missingTables, brokenRelations) :=
    if negb (bool_decide (parent ∈ tableNames)) then
      ({[parent]} ∪ missingTables,
       brokenRelations
       ++ [BrokenRelation.mk arrow parent (Relation.Virtual relation)])
    else (missingTables, brokenRelations) in
  (databases, missingTables, brokenRelations).

Definition ValidateMergedSchema (setOrder : SetOrder) (schema : Schema.t)
    : ValidationResults.t :=
  let '(tableNames, databases) :=
    foldl indexTable (∅, ∅) (Schema.Tables schema) in
  let '(virtualRelations, fkRelations) :=
    foldl countRelation (0, 0) (Schema.Relations schema) in
  let '(databases, missingTables, brokenRelations) :=
    foldl (checkRelation tableNames) (databases, ∅, [])
      (Schema.Relations schema) in
  let dbList := setOrder databases in
  let missingList := setOrder missingTables in
  ValidationResults.mk (length (Schema.Tables schema))
    (length (Schema.Relations schema)) virtualRelations fkRelations
    brokenRelations missingList dbList.

(** ** The [merge] command of [cmd]

    [strings.SplitN] and the part of [mergeCmd.RunE] that checks the
    arguments and builds the configuration of [MergeSchemas]. *)

Module StringsN.

(** [explode(s, n)]: at most [n] pieces of one byte, the last one holding
    what is left. *)
Fixpoint explodeN (n : nat) (s : string) : list string :=
  match n, s with
  | O, _ => []
  | _, EmptyString => []
  | 1, _ => [s]
  | S n', String c s' => String c EmptyString :: explodeN n' s'
  end.

(** [genSplit] with a bound: [pieces] counts the pieces that may still
    begin, the one under construction included. *)
Fixpoint genSplitN (sep : string) (pieces skip : nat) (s : string) : list string :=
  match s with
  | EmptyString => [EmptyString]
  | String c s' =>
      match skip with
      | S skip' => genSplitN sep pieces skip' s'
      | O =>
          match pieces with
          | 0 | 1 => [s]
          | S pieces' =>
              if Strings.HasPrefix s sep
              then EmptyString :: genSplitN sep pieces' (Strings.len sep - 1) s'
              else
                match genSplitN sep pieces 0 s' with
                | piece :: rest => String c piece :: rest
                | [] => [String c EmptyString]
                end
          end
      end
  end.

Definition SplitN (s sep : string) (n : Z) : list string :=
  if (n =? 0)%Z then []
  else
    match sep with
    | EmptyString =>
        if (n <? 0)%Z then Strings.explode s else explodeN (Z.to_nat n) s
    | _ =>
        if (n <? 0)%Z then Strings.genSplit sep 0 s
        else genSplitN sep (Z.to_nat n) 0 s
    end.

End StringsN.

(** The flags of the command. *)
Module mergeFlags.
Record t := mk {
  outputFile : string;
  mergedName : string;
  mergedDesc : string;
  defaultSchema : string;
  useBrackets : bool;
  extractViewRelations : bool;
  validate : bool;
  dbMappings : list string
}.
End mergeFlags.

(** The loop that parses the database mappings. *)
Fixpoint parseMappings (dbMappings : list string) (dbMapping : gmap string string)
    : error + gmap string string :=
  match dbMappings with
  | [] => inr dbMapping
  | mapping :: rest =>
      let parts := StringsN.SplitN mapping ":" 2 in
      if negb (length parts =? 2) then
        inl ("invalid database mapping format: " ++ mapping
             ++ " (expected filepath:dbname)")%string
      else parseMappings rest (<[sub parts 0 := sub parts 1]> dbMapping)
  end.

(** [mergeCmd.RunE] from the check of the arguments to the configuration
    that it hands to [MergeSchemas]. *)
Definition mergeCmdConfig (flags : mergeFlags.t) (args : list string)
    : error + MergeConfig.t :=
  if length args <? 2 then inl "at least 2 JSON files are required"
  else if String.eqb (mergeFlags.outputFile flags) "" then
    inl "output file must be specified with -o or --output"
  else
    match parseMappings (mergeFlags.dbMappings flags) ∅ with
    | inl err => inl err
    | inr dbMapping =>
        let name :=
          if String.eqb (mergeFlags.mergedName flags) "" then "Combined Schema"
          else mergeFlags.mergedName flags in
        let description :=
          if String.eqb (mergeFlags.mergedDesc flags) "" then
            ("Combined schema from " ++ itoa (length args) ++ " databases")%string
          else mergeFlags.mergedDesc flags in
        inr (MergeConfig.mk name description (mergeFlags.defaultSchema flags)
               (mergeFlags.useBrackets flags)
               (mergeFlags.extractViewRelations flags) dbMapping)
    end.

(** ** The steps of [ExtractDatabaseName] *)

(** [if idx := strings.LastIndex(filename, sep); idx >= 0 { filename = filename[idx+1:] }] *)
Definition afterLastIndex (filename sep : string) : string :=
  let idx := Strings.LastIndex filename sep in
  if (0 <=? idx)%Z then Strings.slice_from (Z.to_nat (idx + 1)) filename
  else filename.

(** [if idx := strings.LastIndex(filename, sep); idx >= 0 { filename = filename[:idx] }] *)
Definition beforeLastIndex (filename sep : string) : string :=
  let idx := Strings.LastIndex filename sep in
  if (0 <=? idx)%Z then Strings.slice_to (Z.to_nat idx) filename
  else filename.

(** A string without the byte [c]. *)
Definition without (c : ascii) (s : string) : bool :=
  allBytes (fun b => negb (Strings.byte_eqb b c)) s.

(** A text of one line: it holds no tab, line feed, form feed or
    carriage return. *)
Definition singleLine (s : string) : bool :=
  allBytes (fun c => negb (Regexp.perlSpace c) || Strings.byte_eqb c " ") s.

(** What every fact of [ExtractJoinsFromSQL] looks like. *)
Definition factShape (sourceTable : string) (j : JoinRelation.t) : Prop :=
  JoinRelation.FromTable j = sourceTable
  /\ JoinRelation.JoinType j ∈ ["LEFT"; "RIGHT"; "FULL"; "INNER"]
  /\ Forall (fun column => bracketFree column = true)
       (JoinRelation.FromColumns j ++ JoinRelation.ToColumns j)
  /\ singleLine (JoinRelation.OnCondition j) = true
  /\ startsWithSpace (JoinRelation.OnCondition j) = false
  /\ endsWithSpace (JoinRelation.OnCondition j) = false.

(** ** What one document adds to a merge *)

Definition standardizedTables (config : MergeConfig.t) (jsonFile : string)
    (schema : Schema.t) : list Table.t :=
  updateTableNames (Schema.Tables schema) (dbPrefixOf config jsonFile)
    (schemaNameOf config schema) (MergeConfig.UseBrackets config).

Definition derivedRelations (config : MergeConfig.t) (jsonFile : string)
    (schema : Schema.t) : list Relation.t :=
  if MergeConfig.ExtractViewRelations config
  then ExtractRelationsFromDefinitions (standardizedTables config jsonFile schema)
         (dbPrefixOf config jsonFile) (schemaNameOf config schema)
         (MergeConfig.UseBrackets config)
  else [].

Definition standardizedFunctions (config : MergeConfig.t) (jsonFile : string)
    (schema : Schema.t) : list Function.t :=
  updateFunctions (Schema.Functions schema) (dbPrefixOf config jsonFile)
    (schemaNameOf config schema) (MergeConfig.UseBrackets config).

(** The relations of a merge before deduplication: for each document in
    turn, its own relations and then the derived ones. *)
Definition gatheredRelations (config : MergeConfig.t)
    (docs : list (string * Schema.t)) : list Relation.t :=
  flat_map (fun '(jsonFile, schema) =>
              standardizedRelations config jsonFile schema
              ++ derivedRelations config jsonFile schema) docs.

(** The driver of the first document that has one. *)
Definition firstDriver (docs : list (string * Schema.t)) : option Driver.t :=
  head (omap (fun doc => Schema.Driver_ doc.2) docs).

(** The state of the loop of [MergeSchemas] after the documents [docs],
    from the state [(merged, stats)]. *)
Record mergedBy (config : MergeConfig.t) (docs : list (string * Schema.t))
    (merged : Schema.t) (stats : MergeStats.t)
    (merged' : Schema.t) (stats' : MergeStats.t) : Prop := {
  by_name : Schema.Name merged' = Schema.Name merged;
  by_desc : Schema.Desc merged' = Schema.Desc merged;
  by_tables :
    Schema.Tables merged'
    = Schema.Tables merged
      ++ flat_map (fun '(jsonFile, schema) =>
                     standardizedTables config jsonFile schema) docs;
  by_relations :
    Schema.Relations merged'
    = Schema.Relations merged ++ gatheredRelations config docs;
  by_functions :
    Schema.Functions merged'
    = Schema.Functions merged
      ++ flat_map (fun '(jsonFile, schema) =>
                     standardizedFunctions config jsonFile schema) docs;
  by_driver :
    Schema.Driver_ merged'
    = match Schema.Driver_ merged with
      | Some d => Some d
      | None => firstDriver docs
      end;
  by_databases :
    MergeStats.Databases stats'
    = MergeStats.Databases stats
      ++ map (fun doc => dbPrefixOf config doc.1) docs;
  by_total_tables :
    MergeStats.TotalTables stats'
    = MergeStats.TotalTables stats
      + length (flat_map (fun doc => Schema.Tables doc.2) docs);
  by_total_views :
    MergeStats.TotalViews stats'
    = MergeStats.TotalViews stats
      + length (filter (fun t => isView t = true)
                  (flat_map (fun doc => Schema.Tables doc.2) docs));
  by_total_relations :
    MergeStats.TotalRelations stats'
    = MergeStats.TotalRelations stats
      + length (flat_map (fun doc => Schema.Relations doc.2) docs);
  by_extracted :
    MergeStats.ExtractedRelations stats'
    = MergeStats.ExtractedRelations stats
      + length (flat_map (fun '(jsonFile, schema) =>
                            derivedRelations config jsonFile schema) docs);
  by_total_functions :
    MergeStats.TotalFunctions stats'
    = MergeStats.TotalFunctions stats
      + length (flat_map (fun doc => Schema.Functions doc.2) docs);
  by_deduplicated :
    MergeStats.DeduplicatedCount stats' = MergeStats.DeduplicatedCount stats
}.

(** A merged schema with one relation whose parent is no table of the
    schema. *)
Definition danglingSchema : Schema.t :=
  Schema.mk "Combined Schema" ""
    [Table.named "DV.dbo.Orders"; Table.named "DM.dbo.Customers"]
    [Relation.mk (Table.named "DV.dbo.Orders") [Column.mk "customer_id"]
       ZeroOrMore (Table.named "DM.dbo.Customers") [Column.mk "id"] ExactlyOne
       "" false;
     Relation.mk (Table.named "DV.dbo.Orders") [Column.mk "product_id"]
       ExactlyOne (Table.named "PIM.dbo.Products") [Column.mk "id"] ZeroOrMore
       "[INNER JOIN] o.product_id = p.id" true]
    [] None.

(** The flags as [init] declares them, with the output file that the
    command requires. *)
Definition flagDefaults (outputFile : string) : mergeFlags.t :=
  mergeFlags.mk outputFile "" "" "dbo" true true false [].

(** The mapping [file:database] as it is written on the command line. *)
Definition mappingFlag (entry : string * string) : string :=
  (entry.1 ++ ":" ++ entry.2)%string.

(** A document whose relation joins two of its own tables. *)
Definition closedDocument : Schema.t :=
  Schema.mk "dv" ""
    [Table.named "Orders"; Table.named "sales.Customers"]
    [Relation.mk (Table.named "Orders") [Column.mk "customer_id"] ZeroOrMore
       (Table.named "sales.Customers") [Column.mk "id"] ExactlyOne "" false]
    [] None.
(** * Properties *)

(** ** Dedup Engine *)

Section Dedup.
Implicit Types (r : Relation.t) (cands relations : list Relation.t).

Lemma survivor_snoc cands r :
  survivor (cands ++ [r]) =
  match survivor cands with
  | None => Some r
  | Some existing =>
      if negb (Relation.Virtual r) && Relation.Virtual existing
      then Some r else Some existing
  end.
Proof.
  destruct cands as [|first later]; [cbn; by destruct (Relation.Virtual r)|].
  cbn [app survivor].
  destruct (Relation.Virtual first) eqn:Hfirst; cbn.
  - induction later as [|x later IH]; cbn.
    + rewrite Hfirst. by destruct (Relation.Virtual r).
    + destruct (Relation.Virtual x) eqn:Hx; cbn; [exact IH|].
      rewrite Hx. by rewrite andb_false_r.
  - rewrite Hfirst. by rewrite andb_false_r.
Qed.

Lemma survivor_elem cands r : survivor cands = Some r -> r ∈ cands.
Proof.
  destruct cands as [|first later]; [done|]. cbn.
  destruct (Relation.Virtual first); [|intros [= <-]; left].
  destruct (find _ later) as [x|] eqn:Hfind; intros [= <-]; [|left].
  right. apply list_elem_of_In. by apply find_some in Hfind as [? _].
Qed.

Lemma survivor_is_Some cands : cands <> [] -> is_Some (survivor cands).
Proof.
  destruct cands as [|first later]; [done|]. intros _. cbn.
  destruct (Relation.Virtual first); [|by eexists].
  destruct (find _ later); by eexists.
Qed.

Lemma survivor_explicit cands r r' :
  r ∈ cands -> Relation.Virtual r = false ->
  survivor cands = Some r' -> Relation.Virtual r' = false.
Proof.
  destruct cands as [|first later]; [by intros ?%elem_of_nil|].
  intros Hin Hr. cbn.
  destruct (Relation.Virtual first) eqn:Hfirst; [|by intros [= <-]].
  destruct (find _ later) as [x|] eqn:Hfind; intros [= <-].
  - apply find_some in Hfind as [_ Hx]. by apply negb_true_iff in Hx.
  - apply elem_of_cons in Hin as [->|Hin]; [congruence|].
    apply list_elem_of_In in Hin.
    pose proof (find_none _ _ Hfind _ Hin) as Hx. cbn in Hx.
    rewrite Hr in Hx. done.
Qed.

Lemma candidates_snoc key relations r :
  candidates key (relations ++ [r]) =
  candidates key relations ++ (if decide (keyOf r = key) then [r] else []).
Proof.
  unfold candidates. by rewrite filter_app.
Qed.

Lemma seenOf_snoc relations r :
  seenOf (relations ++ [r]) = seenStep (seenOf relations) r.
Proof. unfold seenOf. by rewrite foldl_app. Qed.

(** The [seen] map holds, under each key, the survivor of its candidates. *)
Lemma seenOf_lookup relations key :
  seenOf relations !! key = survivor (candidates key relations).
Proof.
  induction relations as [|r relations IH] using rev_ind; [done|].
  rewrite seenOf_snoc, candidates_snoc. unfold seenStep.
  destruct (decide (keyOf r = key)) as [<-|Hne].
  - rewrite survivor_snoc, <- IH.
    destruct (seenOf relations !! keyOf r) as [existing|] eqn:Hseen.
    + destruct (negb (Relation.Virtual r) && Relation.Virtual existing);
        [by rewrite lookup_insert_eq | done].
    + by rewrite lookup_insert_eq.
  - rewrite app_nil_r, <- IH.
    destruct (seenOf relations !! keyOf r) as [existing|].
    + destruct (negb (Relation.Virtual r) && Relation.Virtual existing);
        [by rewrite lookup_insert_ne | done].
    + by rewrite lookup_insert_ne.
Qed.

Lemma seenOf_key relations key r :
  seenOf relations !! key = Some r -> keyOf r = key /\ r ∈ relations.
Proof.
  rewrite seenOf_lookup. intros Hr%survivor_elem.
  unfold candidates in Hr. by apply list_elem_of_filter in Hr.
Qed.

Lemma range_collect (entries : list (relKey.t * Relation.t)) acc :
  foldl (fun result entry => result ++ [entry.2]) acc entries
  = acc ++ entries.*2.
Proof.
  revert acc. induction entries as [|e entries IH]; intros acc; cbn.
  - by rewrite app_nil_r.
  - by rewrite IH, <- app_assoc.
Qed.

Lemma DeduplicateRelations_elem rangeOrder relations r :
  rangeOrderOk rangeOrder ->
  r ∈ DeduplicateRelations rangeOrder relations
  <-> seenOf relations !! keyOf r = Some r.
Proof.
  intros Hok. unfold DeduplicateRelations. rewrite range_collect. cbn.
  rewrite list_elem_of_fmap. split.
  - intros [[k r'] [-> Hin]]. rewrite (Hok _) in Hin.
    apply elem_of_map_to_list in Hin. cbn.
    by destruct (seenOf_key _ _ _ Hin) as [-> _].
  - intros Hseen. exists (keyOf r, r). split; [done|].
    rewrite (Hok _). by apply elem_of_map_to_list.
Qed.

Lemma DeduplicateRelations_keys rangeOrder relations :
  rangeOrderOk rangeOrder ->
  keyOf <$> DeduplicateRelations rangeOrder relations
  ≡ₚ (map_to_list (seenOf relations)).*1.
Proof.
  intros Hok. unfold DeduplicateRelations. rewrite range_collect. cbn.
  rewrite (Hok _), <- list_fmap_compose.
  erewrite list_fmap_ext; [done|]. intros _ [k r] Hin%list_elem_of_lookup_2.
  apply elem_of_map_to_list in Hin. cbn.
  by destruct (seenOf_key _ _ _ Hin) as [-> _].
Qed.

End Dedup.


(** The non-virtual relation survives its virtual duplicate in either
    arrival order, and the result is the same two relations. *)
Example DeduplicateRelations_test :
  DeduplicateRelations map_to_list
    [ordersCustomers false; ordersCustomers true; ordersProducts]
  ≡ₚ [ordersCustomers false; ordersProducts]
  /\ DeduplicateRelations map_to_list
       [ordersCustomers true; ordersProducts; ordersCustomers false]
     ≡ₚ [ordersCustomers false; ordersProducts].
Proof.
  split; vm_compute; first [reflexivity | apply Permutation_swap].
Qed.

(** ** Join Extractor *)

(** C3. For the text of the specification, with source table [Orders],
    defaults [DV] and [dbo] and brackets enabled, [ExtractJoinsFromSQL]
    returns exactly one fact: an INNER join to [[DV].[dbo].[Customers]]
    from column [customer_id] to column [id]. *)
Theorem ExtractJoinsFromSQL_inner_join :
  ExtractJoinsFromSQL
    "... FROM Orders o INNER JOIN Customers c ON o.customer_id = c.id"
    "Orders" "DV" "dbo" true
  = [ JoinRelation.mk "Orders" ["customer_id"] "[DV].[dbo].[Customers]" ["id"]
        "INNER" "o.customer_id = c.id" ].
Proof. vm_compute. reflexivity. Qed.

(** The texts of [TestExtractJoinsFromSQL]: one fact for the inner join,
    two for the two joins, none without a join. *)
Example ExtractJoinsFromSQL_tests :
  ExtractJoinsFromSQL simpleInnerJoin "Orders" "DV" "dbo" true
  = [ JoinRelation.mk "Orders" ["customer_id"] "[DV].[dbo].[Customers]" ["id"]
        "INNER" "o.customer_id = c.id" ]
  /\ length (ExtractJoinsFromSQL multipleJoins "Orders" "DV" "dbo" true) = 2
  /\ ExtractJoinsFromSQL "SELECT * FROM Orders WHERE status = 'active'"
       "Orders" "DV" "dbo" true = [].
Proof. by vm_compute. Qed.

(** ** Relation Deriver *)

(** The text of C3 with LEFT JOIN gives a LEFT fact, and its relation has
    the cardinalities ZeroOrOne and ZeroOrMore. *)
Example ExtractRelationsFromDefinitions_left_join :
  map (fun r => (Relation.Cardinality_ r, Relation.ParentCardinality r,
                 Relation.Def r))
    (ExtractRelationsFromDefinitions
       [Table.mk "Orders" "VIEW"
          "... FROM Orders o LEFT JOIN Customers c ON o.customer_id = c.id"
          [] [] []]
       "DV" "dbo" true)
  = [(ZeroOrOne, ZeroOrMore, "[LEFT JOIN] o.customer_id = c.id")].
Proof. by vm_compute. Qed.

Lemma ExtractRelationsFromDefinitions_elem tables defaultDB defaultSchema
    useBrackets (r : Relation.t) :
  r ∈ ExtractRelationsFromDefinitions tables defaultDB defaultSchema useBrackets ->
  exists table joinInfo,
    table ∈ tables
    /\ joinInfo ∈ ExtractJoinsFromSQL (Table.Def table) (Table.Name table)
                    defaultDB defaultSchema useBrackets
    /\ r = virtualRelation joinInfo.
Proof.
  unfold ExtractRelationsFromDefinitions.
  rewrite list_elem_of_In, in_flat_map.
  intros (table & Htable & Hr). exists table.
  unfold relationsOfTable in Hr.
  destruct (_ && _); [done|]. destruct (String.eqb _ _); [done|].
  apply in_map_iff in Hr as (joinInfo & <- & Hjoin).
  exists joinInfo. by rewrite !list_elem_of_In.
Qed.

(** C4. The cardinalities of a derived relation depend on the join type
    of its fact alone: LEFT gives (ZeroOrOne, ZeroOrMore), RIGHT gives
    (ZeroOrMore, ZeroOrOne) and every other join type, INNER and FULL
    among them, gives (ExactlyOne, ZeroOrMore). *)
Theorem virtualRelation_cardinality (joinInfo : JoinRelation.t) :
  let r := virtualRelation joinInfo in
  let joinType := JoinRelation.JoinType joinInfo in
  (Relation.Cardinality_ r, Relation.ParentCardinality r)
  = (if decide (joinType = "LEFT") then (ZeroOrOne, ZeroOrMore)
     else if decide (joinType = "RIGHT") then (ZeroOrMore, ZeroOrOne)
     else (ExactlyOne, ZeroOrMore)).
Proof.
  cbn zeta. unfold virtualRelation, cardinalityOf.
  destruct (String.eqb_spec (JoinRelation.JoinType joinInfo) "LEFT")
    as [->|Hleft]; [done|].
  destruct (String.eqb_spec (JoinRelation.JoinType joinInfo) "RIGHT")
    as [->|Hright]; [done|].
  by rewrite !decide_False.
Qed.

Example virtualRelation_cardinality_samples :
  let pair joinType :=
    let r := virtualRelation (JoinRelation.mk "" [] "" [] joinType "") in
    (Relation.Cardinality_ r, Relation.ParentCardinality r) in
  pair "LEFT" = (ZeroOrOne, ZeroOrMore)
  /\ pair "RIGHT" = (ZeroOrMore, ZeroOrOne)
  /\ pair "INNER" = (ExactlyOne, ZeroOrMore)
  /\ pair "FULL" = (ExactlyOne, ZeroOrMore).
Proof. by vm_compute. Qed.

(** ** Strings *)

Section StringFacts.
Local Open Scope string_scope.
Implicit Types (s t w : string) (c : ascii).

Lemma append_cons c s t : String c s ++ t = String c (s ++ t).
Proof. reflexivity. Qed.

Lemma append_nil_l s : "" ++ s = s.
Proof. reflexivity. Qed.

Lemma append_nil_r s : s ++ "" = s.
Proof. induction s as [|c s IH]; [done | by rewrite append_cons, IH]. Qed.

Lemma append_assoc s t w : (s ++ t) ++ w = s ++ (t ++ w).
Proof. induction s as [|c s IH]; [done | by rewrite !append_cons, IH]. Qed.

Lemma byte_eqb_eq (a b : ascii) : Strings.byte_eqb a b = true <-> a = b.
Proof. apply Ascii.eqb_eq. Qed.

Lemma HasPrefix_ToUpper s prefix :
  Strings.ToUpper prefix = prefix ->
  Strings.HasPrefix (Strings.ToUpper s) prefix = hasPrefixFold s prefix.
Proof.
  revert s. induction prefix as [|p prefix IH]; intros s Hupper; [by destruct s|].
  cbn in Hupper. injection Hupper as Hp Hprefix.
  destruct s as [|c s]; [done|]. cbn.
  rewrite (IH _ Hprefix). unfold sameFold. by rewrite Hp.
Qed.

Lemma Contains_ToUpper s substr :
  Strings.ToUpper substr = substr ->
  Strings.Contains (Strings.ToUpper s) substr = containsFold s substr.
Proof.
  intros Hupper. induction s as [|c s IH].
  - cbn [Strings.ToUpper Strings.Contains containsFold].
    by rewrite <- (HasPrefix_ToUpper "" _ Hupper).
  - cbn [Strings.ToUpper Strings.Contains containsFold].
    rewrite IH. f_equal. exact (HasPrefix_ToUpper (String c s) _ Hupper).
Qed.



End StringFacts.

(** ** Regular expressions *)

Section RegexpFacts.
Local Open Scope string_scope.
Import Regexp.
Context {A : Type}.
Implicit Types (k : @cont A) (s w : string) (caps : list string).

Lemma greedy_sound p s caps k a :
  greedy p s caps k = Some a ->
  exists w s', s = w ++ s' /\ allBytes p w = true /\ k s' caps = Some a.
Proof.
  induction s as [|c s IH]; cbn.
  - intros H. by exists "", "".
  - destruct (p c) eqn:Hc; [|intros H; by exists "", (String c s)].
    destruct (greedy p s caps k) as [a'|] eqn:Hgreedy.
    + intros [= ->]. destruct (IH eq_refl) as (w & s' & -> & Hw & Hk).
      exists (String c w), s'. cbn. by rewrite Hc.
    + intros H. by exists "", (String c s).
Qed.


End RegexpFacts.

Section JoinPatternFacts.
Local Open Scope string_scope.
Import Regexp.




End JoinPatternFacts.

Section Extraction.
Variables (sourceTable defaultDB defaultSchema : string) (useBrackets : bool).

Lemma joinTypeOf_classify clause : joinTypeOf clause = classify clause.
Proof.
  unfold joinTypeOf, classify. by rewrite !Contains_ToUpper.
Qed.

Lemma joinOfColumns_elem joinedTableStd onCondition m colMatch j :
  j ∈ joinOfColumns sourceTable joinedTableStd onCondition m colMatch ->
  JoinRelation.JoinType j = classify (sub m 0)
  /\ length (JoinRelation.FromColumns j) = 1
  /\ length (JoinRelation.ToColumns j) = 1.
Proof.
  unfold joinOfColumns. destruct (_ <? _); [by intros ?%elem_of_nil|].
  intros ->%list_elem_of_singleton. cbn. by rewrite joinTypeOf_classify.
Qed.

Lemma joinsOfMatch_elem m j :
  j ∈ joinsOfMatch sourceTable defaultDB defaultSchema useBrackets m ->
  JoinRelation.JoinType j = classify (sub m 0)
  /\ length (JoinRelation.FromColumns j) = 1
  /\ length (JoinRelation.ToColumns j) = 1.
Proof.
  unfold joinsOfMatch. destruct (_ <? _); [by intros ?%elem_of_nil|].
  rewrite list_elem_of_In, in_flat_map. intros (colMatch & _ & Hj).
  apply list_elem_of_In in Hj. by eapply joinOfColumns_elem.
Qed.

Lemma ExtractJoinsFromSQL_elem sqlDef j :
  j ∈ ExtractJoinsFromSQL sqlDef sourceTable defaultDB defaultSchema useBrackets ->
  exists m,
    m ∈ Regexp.FindAllStringSubmatch joinPattern sqlDef
    /\ j ∈ joinsOfMatch sourceTable defaultDB defaultSchema useBrackets m.
Proof.
  unfold ExtractJoinsFromSQL. destruct (String.eqb _ _); [by intros ?%elem_of_nil|].
  rewrite list_elem_of_In, in_flat_map. intros (m & Hm & Hj).
  exists m. by rewrite !list_elem_of_In.
Qed.



End Extraction.



(** C8. Every derived relation is virtual and has one child column and
    one parent column: it comes from one equality pair. *)
Theorem ExtractRelationsFromDefinitions_virtual
    (tables : list Table.t) (defaultDB defaultSchema : string)
    (useBrackets : bool) (r : Relation.t) :
  r ∈ ExtractRelationsFromDefinitions tables defaultDB defaultSchema useBrackets ->
  Relation.Virtual r = true
  /\ length (Relation.Columns r) = 1
  /\ length (Relation.ParentColumns r) = 1.
Proof.
  intros (table & j & _ & Hj & ->)%ExtractRelationsFromDefinitions_elem.
  apply ExtractJoinsFromSQL_elem in Hj as (m & _ & Hj).
  destruct (joinsOfMatch_elem _ _ _ _ _ _ Hj) as (_ & Hfrom & Hto).
  unfold virtualRelation. destruct (cardinalityOf _). cbn.
  by rewrite !length_map.
Qed.

Lemma ExtractRelationsFromDefinitions_virtual_witness :
  let r :=
    virtualRelation
      (JoinRelation.mk "[DV].[dbo].[OrderLines]" ["shop"] "[DV].[dbo].[Lines]"
         ["shop"] "INNER" "o.id = l.order_id AND o.shop = l.shop") in
  r ∈ ExtractRelationsFromDefinitions [compositeView] "DV" "dbo" true
  /\ Relation.Virtual r = true
  /\ length (Relation.Columns r) = 1
  /\ length (Relation.ParentColumns r) = 1.
Proof.
  cbn zeta.
  assert (virtualRelation
            (JoinRelation.mk "[DV].[dbo].[OrderLines]" ["shop"]
               "[DV].[dbo].[Lines]" ["shop"] "INNER"
               "o.id = l.order_id AND o.shop = l.shop")
          ∈ ExtractRelationsFromDefinitions [compositeView] "DV" "dbo" true)
    as Hr by (vm_compute; right; left).
  split; [exact Hr|].
  exact (ExtractRelationsFromDefinitions_virtual _ _ _ _ _ Hr).
Defined.

(** The two equality pairs of [compositeView] give two relations of one
    column each. *)
Example ExtractRelationsFromDefinitions_composite :
  map (fun r => (Relation.Columns r, Relation.ParentColumns r))
    (ExtractRelationsFromDefinitions [compositeView] "DV" "dbo" true)
  = [ ([Column.mk "id"], [Column.mk "order_id"]);
      ([Column.mk "shop"], [Column.mk "shop"]) ].
Proof. by vm_compute. Qed.


(** ** Identifier Model *)

Section SplitJoin.
Local Open Scope string_scope.
Implicit Types (s t piece : string) (c : ascii) (parts : list string)
  (p q : ascii -> bool).

Lemma allBytes_impl p q s :
  (forall c, p c = true -> q c = true) -> allBytes p s = true ->
  allBytes q s = true.
Proof.
  intros Hpq. induction s as [|c s IH]; [done|]. cbn.
  intros [Hc Hs]%andb_prop. by rewrite (Hpq _ Hc), (IH Hs).
Qed.

Lemma plain_dotFree s : plain s = true -> dotFree s = true.
Proof. apply allBytes_impl. by intros c [? _]%andb_prop. Qed.

Lemma plain_bracketFree s : plain s = true -> bracketFree s = true.
Proof. apply allBytes_impl. by intros c [_ ?]%andb_prop. Qed.

Lemma plain_intro s : dotFree s = true -> bracketFree s = true -> plain s = true.
Proof.
  unfold plain, dotFree, bracketFree. induction s as [|c s IH]; [done|]. cbn.
  intros [-> Hs]%andb_prop [-> Hs']%andb_prop. by rewrite IH.
Qed.

(** *** [removeBytes] *)

Lemma removeBytes_append p s t :
  removeBytes p (s ++ t) = removeBytes p s ++ removeBytes p t.
Proof.
  induction s as [|c s IH]; [done|]. rewrite append_cons. cbn.
  destruct (p c); by rewrite IH.
Qed.

Lemma removeBytes_id p s :
  allBytes (fun c => negb (p c)) s = true -> removeBytes p s = s.
Proof.
  induction s as [|c s IH]; [done|]. cbn.
  intros [Hc Hs]%andb_prop. apply negb_true_iff in Hc. by rewrite Hc, IH.
Qed.

Lemma removeBytes_clean p s :
  allBytes (fun c => negb (p c)) (removeBytes p s) = true.
Proof.
  induction s as [|c s IH]; [done|]. cbn.
  destruct (p c) eqn:Hc; [done|]. cbn. by rewrite Hc.
Qed.

Lemma removeBytes_idem p s : removeBytes p (removeBytes p s) = removeBytes p s.
Proof. apply removeBytes_id, removeBytes_clean. Qed.

Lemma ReplaceAll_byte c s :
  Strings.ReplaceAll s (String c "") "" = removeBytes (fun b => Strings.byte_eqb b c) s.
Proof.
  unfold Strings.ReplaceAll. cbn [String.eqb].
  induction s as [|b s IH]; [done|].
  cbn [Strings.replaceFrom Strings.HasPrefix removeBytes Strings.len String.length].
  rewrite andb_true_r. destruct (Strings.byte_eqb b c); cbn [Nat.sub]; by rewrite IH.
Qed.

(** [NormalizeBrackets] removes every bracket. *)
Lemma NormalizeBrackets_removeBytes s :
  NormalizeBrackets s = removeBytes isBracket s.
Proof.
  unfold NormalizeBrackets. rewrite !ReplaceAll_byte.
  induction s as [|b s IH]; [done|]. cbn. unfold isBracket.
  destruct (Strings.byte_eqb b "[") eqn:Hopen; cbn; [exact IH|].
  destruct (Strings.byte_eqb b "]"); by rewrite IH.
Qed.

(** *** [Split] and [Join] on the separator ["."] *)

Lemma Split_dot s : Strings.Split s "." = Strings.genSplit "." 0 s.
Proof. reflexivity. Qed.

Lemma genSplit_dot_cons c s :
  Strings.genSplit "." 0 (String c s) =
  if isDot c then "" :: Strings.genSplit "." 0 s
  else match Strings.genSplit "." 0 s with
       | piece :: pieces => String c piece :: pieces
       | [] => [String c ""]
       end.
Proof.
  cbn [Strings.genSplit Strings.HasPrefix]. rewrite andb_true_r. reflexivity.
Qed.

Lemma genSplit_dot_nonempty s : Strings.genSplit "." 0 s <> [].
Proof.
  destruct s as [|c s]; [done|]. rewrite genSplit_dot_cons.
  destruct (isDot c); [done|]. by destruct (Strings.genSplit "." 0 s).
Qed.

Lemma Join_cons piece parts :
  parts <> [] ->
  Strings.Join (piece :: parts) "." = piece ++ "." ++ Strings.Join parts ".".
Proof. by destruct parts. Qed.

Lemma Join_genSplit s : Strings.Join (Strings.genSplit "." 0 s) "." = s.
Proof.
  induction s as [|c s IH]; [done|]. rewrite genSplit_dot_cons.
  pose proof (genSplit_dot_nonempty s) as Hne.
  destruct (isDot c) eqn:Hc.
  - apply byte_eqb_eq in Hc as ->. rewrite Join_cons by done. by rewrite IH.
  - destruct (Strings.genSplit "." 0 s) as [|piece pieces]; [done|].
    destruct pieces as [|piece' pieces].
    + cbn in *. by rewrite IH.
    + rewrite Join_cons by done. rewrite Join_cons in IH by done.
      by rewrite append_cons, IH.
Qed.

Lemma genSplit_allBytes q s :
  allBytes q s = true ->
  Forall (fun piece => allBytes q piece = true) (Strings.genSplit "." 0 s).
Proof.
  induction s as [|c s IH]; [by repeat constructor|].
  cbn [allBytes]. intros [Hc Hs]%andb_prop. specialize (IH Hs).
  rewrite genSplit_dot_cons. destruct (isDot c); [by constructor|].
  destruct (Strings.genSplit "." 0 s) as [|piece pieces].
  - repeat constructor. cbn. by rewrite Hc.
  - inversion IH; subst. constructor; [|done]. cbn. by rewrite Hc.
Qed.

Lemma genSplit_dotFree s :
  Forall (fun piece => dotFree piece = true) (Strings.genSplit "." 0 s).
Proof.
  induction s as [|c s IH]; [by repeat constructor|].
  rewrite genSplit_dot_cons. destruct (isDot c) eqn:Hc; [by constructor|].
  destruct (Strings.genSplit "." 0 s) as [|piece pieces].
  - repeat constructor. unfold dotFree. cbn. by rewrite Hc.
  - inversion IH; subst. constructor; [|done].
    unfold dotFree in *. cbn. by rewrite Hc.
Qed.

Lemma genSplit_append piece s :
  dotFree piece = true ->
  Strings.genSplit "." 0 (piece ++ s) =
  match Strings.genSplit "." 0 s with
  | first :: pieces => (piece ++ first) :: pieces
  | [] => [piece]
  end.
Proof.
  intros Hpiece. pose proof (genSplit_dot_nonempty s) as Hne.
  induction piece as [|c piece IH].
  - rewrite append_nil_l. by destruct (Strings.genSplit "." 0 s).
  - unfold dotFree in Hpiece. cbn in Hpiece.
    apply andb_prop in Hpiece as [Hc Hpiece]. apply negb_true_iff in Hc.
    rewrite append_cons, genSplit_dot_cons, Hc, (IH Hpiece).
    by destruct (Strings.genSplit "." 0 s).
Qed.

(** Splitting undoes joining, for parts without a dot. *)
Lemma genSplit_Join parts :
  parts <> [] -> Forall (fun piece => dotFree piece = true) parts ->
  Strings.genSplit "." 0 (Strings.Join parts ".") = parts.
Proof.
  induction parts as [|piece parts IH]; [done|]. intros _ Hparts.
  inversion Hparts as [|? ? Hpiece Hrest]; subst.
  destruct parts as [|piece' parts].
  - cbn [Strings.Join]. rewrite <- (append_nil_r piece) at 1.
    rewrite (genSplit_append _ _ Hpiece). cbn. by rewrite append_nil_r.
  - rewrite Join_cons by done. rewrite (genSplit_append _ _ Hpiece).
    rewrite append_cons, append_nil_l, genSplit_dot_cons.
    change (isDot ".") with true. cbn iota.
    rewrite IH by done. by rewrite append_nil_r.
Qed.

Lemma removeBytes_Join p parts :
  p "."%char = false ->
  removeBytes p (Strings.Join parts ".")
  = Strings.Join (map (removeBytes p) parts) ".".
Proof.
  intros Hdot. induction parts as [|piece parts IH]; [done|].
  destruct parts as [|piece' parts]; [done|].
  rewrite Join_cons by done.
  change (map (removeBytes p) (piece :: piece' :: parts))
    with (removeBytes p piece :: map (removeBytes p) (piece' :: parts)).
  rewrite (Join_cons _ (map _ (piece' :: parts))) by done.
  rewrite !removeBytes_append, IH. cbn [removeBytes]. by rewrite Hdot.
Qed.
End SplitJoin.

Section ParseFacts.
Local Open Scope string_scope.
Implicit Types (s name : string) (parts : list string).

(** The switch of [ParseQualifiedName] keeps the last three parts. *)
Lemma switch_lastThree parts :
  (let part i := nth i parts "" in
   match length parts with
   | 1 => QualifiedName.mk "" "" (part 0)
   | 2 => QualifiedName.mk "" (part 0) (part 1)
   | 3 => QualifiedName.mk (part 0) (part 1) (part 2)
   | n =>
       if (3 <? n)%nat
       then QualifiedName.mk (part (n - 3)) (part (n - 2)) (part (n - 1))
       else QualifiedName.mk "" "" ""
   end) = lastThree parts.
Proof.
  unfold lastThree.
  assert (parts = rev (rev parts)) as Hparts by (by rewrite rev_involutive).
  destruct (rev parts) as [|table [|schema [|database rest]]];
    rewrite Hparts; [done..|]. clear Hparts.
  cbn [rev]. rewrite <- !app_assoc. cbn [app].
  set (front := rev rest). cbn zeta.
  rewrite length_app. cbn [length].
  destruct front as [|x front]; [done|].
  cbn [length]. replace (S (length front) + 3) with (S (S (S (S (length front))))) by lia.
  cbn [Nat.ltb Nat.leb]. f_equal.
  - replace (S (S (S (S (length front))) ) - 3) with (length (x :: front) + 0)
      by (cbn; lia).
    by rewrite app_nth2_plus.
  - replace (S (S (S (S (length front))) ) - 2) with (length (x :: front) + 1)
      by (cbn; lia).
    by rewrite app_nth2_plus.
  - replace (S (S (S (S (length front))) ) - 1) with (length (x :: front) + 2)
      by (cbn; lia).
    by rewrite app_nth2_plus.
Qed.

Lemma ParseQualifiedName_lastThree name :
  ParseQualifiedName name
  = lastThree (Strings.Split (removeBytes isBracket name) ".").
Proof.
  unfold ParseQualifiedName. rewrite NormalizeBrackets_removeBytes.
  apply switch_lastThree.
Qed.

(** C2. [ParseQualifiedName] removes every bracket and splits what is
    left at the dots: the parts hold no dot and joined by dots they give
    the text without brackets.  One part is the table; two are schema and
    table; three are database, schema and table; of more than three the
    last three are taken.  A name and the name without its brackets parse
    alike. *)
Theorem ParseQualifiedName_parts (fullName : string) :
  let normalized := removeBytes isBracket fullName in
  let parts := Strings.Split normalized "." in
  NormalizeBrackets fullName = normalized
  /\ parts <> []
  /\ Forall (fun piece => dotFree piece = true) parts
  /\ Strings.Join parts "." = normalized
  /\ ParseQualifiedName fullName =
       match rev parts with
       | [] => QualifiedName.mk "" "" ""
       | [table] => QualifiedName.mk "" "" table
       | [table; schema] => QualifiedName.mk "" schema table
       | table :: schema :: database :: _ =>
           QualifiedName.mk database schema table
       end
  /\ ParseQualifiedName normalized = ParseQualifiedName fullName.
Proof.
  cbn zeta. rewrite Split_dot. repeat split.
  - apply NormalizeBrackets_removeBytes.
  - apply genSplit_dot_nonempty.
  - apply genSplit_dotFree.
  - apply Join_genSplit.
  - apply ParseQualifiedName_lastThree.
  - by rewrite !ParseQualifiedName_lastThree, removeBytes_idem.
Qed.

Example ParseQualifiedName_tests :
  ParseQualifiedName "Users" = QualifiedName.mk "" "" "Users"
  /\ ParseQualifiedName "dbo.Users" = QualifiedName.mk "" "dbo" "Users"
  /\ ParseQualifiedName "DV.dbo.Hub_Customer"
     = QualifiedName.mk "DV" "dbo" "Hub_Customer"
  /\ ParseQualifiedName "[DV].[dbo].[Hub_Customer]"
     = QualifiedName.mk "DV" "dbo" "Hub_Customer"
  /\ ParseQualifiedName "Srv.DV.dbo.Hub_Customer"
     = QualifiedName.mk "DV" "dbo" "Hub_Customer".
Proof. by vm_compute. Qed.
End ParseFacts.

Section TrimFacts.
Local Open Scope string_scope.
Implicit Types (s : string) (c : ascii) (f q : ascii -> bool).

Lemma TrimRightFunc_cons f c s :
  Strings.TrimRightFunc f (String c s) =
  match Strings.TrimRightFunc f s with
  | "" => if f c then "" else String c ""
  | kept => String c kept
  end.
Proof. reflexivity. Qed.

Lemma TrimLeftFunc_allBytes f q s :
  allBytes q s = true -> allBytes q (Strings.TrimLeftFunc f s) = true.
Proof.
  induction s as [|c s IH]; [done|]. intros Hs. cbn [Strings.TrimLeftFunc].
  destruct (f c); [|done]. apply IH. cbn in Hs. by apply andb_prop in Hs as [_ ?].
Qed.

Lemma TrimRightFunc_allBytes f q s :
  allBytes q s = true -> allBytes q (Strings.TrimRightFunc f s) = true.
Proof.
  induction s as [|c s IH]; [done|]. cbn [allBytes].
  intros [Hc Hs]%andb_prop. specialize (IH Hs). rewrite TrimRightFunc_cons.
  destruct (Strings.TrimRightFunc f s) as [|c' kept].
  - destruct (f c); [done|]. cbn. by rewrite Hc.
  - change (q c && allBytes q (String c' kept) = true). by rewrite Hc, IH.
Qed.

Lemma TrimSpace_allBytes q s :
  allBytes q s = true -> allBytes q (Strings.TrimSpace s) = true.
Proof.
  intros Hs. by apply TrimRightFunc_allBytes, TrimLeftFunc_allBytes.
Qed.

Lemma TrimLeftFunc_head f s :
  match Strings.TrimLeftFunc f s with
  | String c _ => f c = false
  | "" => True
  end.
Proof.
  induction s as [|c s IH]; [done|]. cbn [Strings.TrimLeftFunc].
  by destruct (f c) eqn:Hc.
Qed.

Lemma TrimLeftFunc_id f s :
  match s with String c _ => f c = false | "" => True end ->
  Strings.TrimLeftFunc f s = s.
Proof. destruct s as [|c s]; [done|]. cbn. by intros ->. Qed.

Lemma TrimRightFunc_head f s :
  match s with String c _ => f c = false | "" => True end ->
  match Strings.TrimRightFunc f s with
  | String c _ => f c = false
  | "" => True
  end.
Proof.
  destruct s as [|c s]; [done|]. intros Hc. rewrite TrimRightFunc_cons.
  destruct (Strings.TrimRightFunc f s); [by rewrite Hc|done].
Qed.

Lemma TrimRightFunc_idem f s :
  Strings.TrimRightFunc f (Strings.TrimRightFunc f s) = Strings.TrimRightFunc f s.
Proof.
  induction s as [|c s IH]; [done|]. rewrite TrimRightFunc_cons.
  destruct (Strings.TrimRightFunc f s) as [|c' kept] eqn:Hkept.
  - destruct (f c) eqn:Hc; [done|]. cbn. by rewrite Hc.
  - rewrite TrimRightFunc_cons. by rewrite IH.
Qed.

Lemma TrimSpace_idem s :
  Strings.TrimSpace (Strings.TrimSpace s) = Strings.TrimSpace s.
Proof.
  unfold Strings.TrimSpace, Strings.TrimFunc.
  rewrite (TrimLeftFunc_id _ (Strings.TrimRightFunc _ _)).
  - apply TrimRightFunc_idem.
  - apply TrimRightFunc_head, TrimLeftFunc_head.
Qed.





Lemma TrimRightFunc_id s :
  endsWithSpace s = false -> Strings.TrimRightFunc Strings.isSpace s = s.
Proof.
  induction s as [|c s IH]; [done|]. rewrite TrimRightFunc_cons.
  destruct s as [|c' s]; [cbn; by intros ->|].
  intros Hs. rewrite (IH Hs). done.
Qed.

Lemma TrimSpace_id s :
  startsWithSpace s = false -> endsWithSpace s = false ->
  Strings.TrimSpace s = s.
Proof.
  intros Hstart Hend. unfold Strings.TrimSpace, Strings.TrimFunc.
  rewrite TrimLeftFunc_id by (by destruct s).
  by apply TrimRightFunc_id.
Qed.

(** *** [BracketIdentifier] on a component without brackets *)

Lemma plain_HasPrefix s : plain s = true -> Strings.HasPrefix s "[" = false.
Proof.
  destruct s as [|c s]; [done|]. unfold plain. cbn.
  intros [[_ Hc]%andb_prop _]%andb_prop. unfold isBracket in Hc.
  apply negb_true_iff, orb_false_elim in Hc as [-> _]. done.
Qed.

Lemma BracketIdentifier_plain s :
  plain s = true ->
  BracketIdentifier s =
  if String.eqb (Strings.TrimSpace s) "" then ""
  else "[" ++ Strings.TrimSpace s ++ "]".
Proof.
  intros Hs. unfold BracketIdentifier.
  destruct (String.eqb_spec (Strings.TrimSpace s) "") as [->|Hne]; [done|].
  rewrite plain_HasPrefix; [done|]. by apply TrimSpace_allBytes.
Qed.

Lemma BracketIdentifier_removeBytes s :
  plain s = true ->
  removeBytes isBracket (BracketIdentifier s) = Strings.TrimSpace s.
Proof.
  intros Hs. rewrite (BracketIdentifier_plain _ Hs).
  destruct (String.eqb_spec (Strings.TrimSpace s) "") as [->|Hne]; [done|].
  rewrite append_cons, append_nil_l. cbn [removeBytes isBracket].
  change (Strings.byte_eqb "[" "[" || Strings.byte_eqb "[" "]") with true.
  cbn iota. rewrite removeBytes_append, removeBytes_id.
  - cbn. apply append_nil_r.
  - by apply plain_bracketFree, TrimSpace_allBytes.
Qed.

End TrimFacts.

Section BuildFacts.
Local Open Scope string_scope.
Implicit Types (s table schema database : string) (parts : list string).

Lemma BuildQualifiedName_Join table schema database useBrackets :
  BuildQualifiedName table schema database useBrackets
  = Strings.Join
      (map (written useBrackets)
         (filter (fun s => s <> "") [database; schema; table])) ".".
Proof.
  unfold BuildQualifiedName, written.
  rewrite !filter_cons, filter_nil.
  destruct (String.eqb_spec database ""), (String.eqb_spec schema ""),
    (String.eqb_spec table ""); subst;
    repeat case_decide; try done; destruct useBrackets; reflexivity.
Qed.

Lemma written_removeBytes useBrackets s :
  plain s = true ->
  removeBytes isBracket (written useBrackets s) = readBack useBrackets s.
Proof.
  intros Hs. destruct useBrackets; cbn.
  - by apply BracketIdentifier_removeBytes.
  - by apply removeBytes_id, plain_bracketFree.
Qed.

Lemma readBack_plain useBrackets s :
  plain s = true -> plain (readBack useBrackets s) = true.
Proof. destruct useBrackets; [apply TrimSpace_allBytes | done]. Qed.


(** Parsing a name that was built from components without dots and
    brackets gives the components back, as they read without brackets. *)
Lemma ParseQualifiedName_Join useBrackets parts :
  parts <> [] -> Forall (fun s => plain s = true) parts ->
  ParseQualifiedName (Strings.Join (map (written useBrackets) parts) ".")
  = lastThree (map (readBack useBrackets) parts).
Proof.
  intros Hne Hplain. rewrite ParseQualifiedName_lastThree.
  rewrite removeBytes_Join by done. rewrite map_map.
  rewrite (map_ext_Forall _ (readBack useBrackets)).
  - rewrite Split_dot, genSplit_Join; [done| |].
    + by intros ?%map_eq_nil.
    + apply Forall_map. eapply Forall_impl; [exact Hplain|].
      intros s Hs. cbn. by apply plain_dotFree, readBack_plain.
  - eapply Forall_impl; [exact Hplain|]. intros s Hs.
    by apply written_removeBytes.
Qed.

Lemma lastThree_plain parts :
  Forall (fun s => plain s = true) parts ->
  plain (QualifiedName.Database (lastThree parts)) = true
  /\ plain (QualifiedName.Schema (lastThree parts)) = true
  /\ plain (QualifiedName.Table (lastThree parts)) = true.
Proof.
  intros Hparts. apply Forall_rev in Hparts. unfold lastThree.
  destruct (rev parts) as [|table [|schema [|database rest]]]; [done|..].
  - by inversion Hparts.
  - inversion Hparts as [|? ? ? Hrest]; subst. by inversion Hrest.
  - inversion Hparts as [|? ? ? Hrest]; subst.
    inversion Hrest as [|? ? ? Hrest']; subst. by inversion Hrest'.
Qed.

(** The components of a parsed name hold no dot and no bracket. *)
Lemma ParseQualifiedName_plain name :
  plain (QualifiedName.Database (ParseQualifiedName name)) = true
  /\ plain (QualifiedName.Schema (ParseQualifiedName name)) = true
  /\ plain (QualifiedName.Table (ParseQualifiedName name)) = true.
Proof.
  rewrite ParseQualifiedName_lastThree. apply lastThree_plain.
  rewrite Split_dot.
  pose proof (genSplit_dotFree (removeBytes isBracket name)) as Hdot.
  pose proof (genSplit_allBytes _ _ (removeBytes_clean isBracket name)) as Hbr.
  rewrite Forall_forall in *. intros s Hs. apply plain_intro; auto.
Qed.


End BuildFacts.

Section Idempotence.
Local Open Scope string_scope.
Implicit Types (s name defaultDB defaultSchema : string).








Example StandardizeTableName_twice :
  StandardizeTableName "T" "X" "" false = "X.T"
  /\ StandardizeTableName "X.T" "X" "" false = "X.X.T"
  /\ StandardizeTableName " " "DV" "dbo" true = "[DV].[dbo]."
  /\ StandardizeTableName "[DV].[dbo]." "DV" "dbo" true = "[DV].[dbo]".
Proof. by vm_compute. Qed.

Example StandardizeTableName_tests :
  StandardizeTableName "Users" "DV" "dbo" true = "[DV].[dbo].[Users]"
  /\ StandardizeTableName "sales.Orders" "DV" "dbo" true
     = "[DV].[sales].[Orders]"
  /\ StandardizeTableName "DM.reporting.Summary" "DV" "dbo" true
     = "[DM].[reporting].[Summary]"
  /\ StandardizeTableName "[Users]" "DV" "dbo" true = "[DV].[dbo].[Users]"
  /\ StandardizeTableName "Users" "DV" "dbo" false = "DV.dbo.Users".
Proof. by vm_compute. Qed.
End Idempotence.

(** ** Merge Orchestrator *)

Section MergeFacts.
Variable LoadSchemaFromJSON : string -> error + Schema.t.
Variable Repair : Schema.t -> error + Schema.t.
Variable rangeOrder : RangeOrder.
Implicit Types (config : MergeConfig.t) (merged : Schema.t)
  (stats : MergeStats.t) (jsonFiles : list string).

Lemma crossesDatabases_spec (rel : Relation.t) :
  crossesDatabases rel = true <-> crossDatabase rel.
Proof.
  unfold crossesDatabases, crossDatabase. cbn zeta.
  rewrite !andb_true_iff, !negb_true_iff, !String.eqb_neq. tauto.
Qed.

(** The counting loop adds one for each relation that crosses databases. *)
Lemma count_crossDatabase (relations : list Relation.t) (n : nat) :
  foldl (fun n rel => if crossesDatabases rel then S n else n) n relations
  = n + length (filter crossDatabase relations).
Proof.
  revert n. induction relations as [|rel relations IH]; intros n; cbn [foldl].
  - cbn. lia.
  - rewrite IH, filter_cons.
    destruct (crossesDatabases rel) eqn:Hrel.
    + rewrite decide_True by (by apply crossesDatabases_spec). cbn. lia.
    + rewrite decide_False; [done|].
      intros Hcross%crossesDatabases_spec. congruence.
Qed.

Lemma mergeFile_crossDatabase config merged stats jsonFile merged' stats' :
  mergeFile LoadSchemaFromJSON config (merged, stats) jsonFile
  = inr (merged', stats') ->
  exists schema,
    LoadSchemaFromJSON jsonFile = inr schema
    /\ MergeStats.CrossDBRelations stats'
       = MergeStats.CrossDBRelations stats
         + length (filter crossDatabase
                     (standardizedRelations config jsonFile schema)).
Proof.
  unfold mergeFile.
  destruct (LoadSchemaFromJSON jsonFile) as [err|schema]; [done|].
  intros [= _ <-]. exists schema. split; [done|]. cbn.
  apply count_crossDatabase.
Qed.

Lemma mergeFiles_crossDatabase config jsonFiles : forall merged stats merged' stats',
  mergeFiles LoadSchemaFromJSON config (merged, stats) jsonFiles
  = inr (merged', stats') ->
  MergeStats.CrossDBRelations stats'
  = MergeStats.CrossDBRelations stats
    + length (filter crossDatabase
                (flat_map (fun '(jsonFile, schema) =>
                             standardizedRelations config jsonFile schema)
                   (documents LoadSchemaFromJSON jsonFiles))).
Proof.
  induction jsonFiles as [|jsonFile jsonFiles IH];
    intros merged stats merged' stats'; cbn [mergeFiles].
  - intros [= _ <-]. cbn. lia.
  - destruct (mergeFile _ _ _ jsonFile) as [err|[merged1 stats1]] eqn:Hfile;
      [done|].
    intros Hrest. apply IH in Hrest.
    apply mergeFile_crossDatabase in Hfile as (schema & Hload & Hcount).
    rewrite Hrest, Hcount. unfold documents. cbn [flat_map]. rewrite Hload.
    cbn [app flat_map]. rewrite filter_app, length_app. lia.
Qed.

(** C7, as the code has it.  After a merge the cross-database counter is
    the number of relations of the source documents themselves whose two
    sides, once standardized, parse to database components that are not
    empty and differ: the loop adds one for each of them.  Relations that
    are derived from view definitions are not counted. *)
Theorem MergeSchemas_crossDatabase jsonFiles (config : option MergeConfig.t)
    merged stats :
  MergeSchemas LoadSchemaFromJSON Repair rangeOrder jsonFiles config
  = inr (merged, stats) ->
  let config := default (defaultConfig jsonFiles) config in
  MergeStats.CrossDBRelations stats
  = length (filter crossDatabase
              (flat_map (fun '(jsonFile, schema) =>
                           standardizedRelations config jsonFile schema)
                 (documents LoadSchemaFromJSON jsonFiles))).
Proof.
  unfold MergeSchemas. cbn zeta.
  replace (match config with Some c => c | None => defaultConfig jsonFiles end)
    with (default (defaultConfig jsonFiles) config) by (by destruct config).
  destruct (mergeFiles _ _ _ jsonFiles) as [err|[merged1 stats1]] eqn:Hfiles;
    [done|].
  destruct (Repair _) as [err|merged2]; [done|]. intros [= _ <-].
  apply mergeFiles_crossDatabase in Hfiles. cbn in *. exact Hfiles.
Qed.
End MergeFacts.

(** Merging the two documents of one table each counts the one relation
    that goes from DV to DM. *)
Lemma MergeSchemas_crossDatabase_witness :
  exists merged stats,
    MergeSchemas twoDocuments inr map_to_list
      ["dv_schema.json"; "dm_schema.json"] None = inr (merged, stats)
    /\ MergeStats.CrossDBRelations stats
       = length (filter crossDatabase
                   (flat_map (fun '(jsonFile, schema) =>
                                standardizedRelations
                                  (defaultConfig
                                     ["dv_schema.json"; "dm_schema.json"])
                                  jsonFile schema)
                      (documents twoDocuments
                         ["dv_schema.json"; "dm_schema.json"])))
    /\ MergeStats.CrossDBRelations stats = 1
    /\ Schema.Relations merged
       = [ Relation.mk (Table.named "[DV].[dbo].[Orders]")
             [Column.mk "customer_id"] ZeroOrMore
             (Table.named "[DM].[dbo].[Customers]") [Column.mk "id"] ExactlyOne
             "FOREIGN KEY (customer_id) REFERENCES Customers (id)" false ].
Proof.
  destruct (MergeSchemas twoDocuments inr map_to_list
              ["dv_schema.json"; "dm_schema.json"] None)
    as [err|[merged stats]] eqn:Hmerge; [by vm_compute in Hmerge|].
  exists merged, stats. split; [done|]. split.
  - exact (MergeSchemas_crossDatabase twoDocuments inr map_to_list _ None
             merged stats Hmerge).
  - vm_compute in Hmerge. injection Hmerge as <- <-. by split.
Defined.

(** C7, as it was stated, fails for a relation that is derived from a
    view: the merged schema holds one relation, it goes from DV to DM, and
    the counter stays at zero. *)
Lemma MergeSchemas_crossDatabase_derived :
  exists merged stats r,
    MergeSchemas viewDocuments inr map_to_list
      ["dv_schema.json"; "dm_schema.json"] None = inr (merged, stats)
    /\ Schema.Relations merged = [r]
    /\ Relation.Virtual r = true
    /\ QualifiedName.Database
         (ParseQualifiedName (Table.Name (Relation.Table r))) = "DV"
    /\ QualifiedName.Database
         (ParseQualifiedName (Table.Name (Relation.ParentTable r))) = "DM"
    /\ crossDatabase r
    /\ MergeStats.ExtractedRelations stats = 1
    /\ MergeStats.CrossDBRelations stats = 0.
Proof. vm_compute. eexists _, _, _. repeat split; discriminate. Qed.

(** * Further properties of the code *)

(** ** [schema/identifier.go] *)

Section MoreStringFacts.
Local Open Scope string_scope.
Implicit Types (s t x y : string) (c : ascii) (q : ascii -> bool).

Lemma len_append x y : Strings.len (x ++ y) = Strings.len x + Strings.len y.
Proof.
  unfold Strings.len. induction x as [|c x IH]; [done|].
  rewrite append_cons. cbn. by rewrite IH.
Qed.

Lemma slice_from_append x y : Strings.slice_from (Strings.len x) (x ++ y) = y.
Proof. induction x as [|c x IH]; [by destruct y|]. by rewrite append_cons. Qed.


Lemma HasSuffix_append x y : Strings.HasSuffix (x ++ y) y = true.
Proof.
  unfold Strings.HasSuffix. rewrite len_append.
  replace (Strings.len x + Strings.len y - Strings.len y) with (Strings.len x)
    by lia.
  rewrite slice_from_append, String.eqb_refl, andb_true_r.
  apply Nat.leb_le. lia.
Qed.


Lemma allBytes_append q x y :
  allBytes q (x ++ y) = allBytes q x && allBytes q y.
Proof.
  induction x as [|c x IH]; [done|].
  rewrite append_cons. cbn. by rewrite IH, andb_assoc.
Qed.

Lemma allBytes_slice_from q n s :
  allBytes q s = true -> allBytes q (Strings.slice_from n s) = true.
Proof.
  revert s. induction n as [|n IH]; intros [|c s]; try done. cbn.
  intros [_ Hs]%andb_prop. by apply IH.
Qed.

Lemma allBytes_slice_to q n s :
  allBytes q s = true -> allBytes q (Strings.slice_to n s) = true.
Proof.
  revert s. induction n as [|n IH]; intros [|c s]; try done. cbn.
  intros [-> Hs]%andb_prop. by apply IH.
Qed.

Lemma allBytes_TrimSuffix q s suffix :
  allBytes q s = true -> allBytes q (Strings.TrimSuffix s suffix) = true.
Proof.
  intros Hs. unfold Strings.TrimSuffix.
  destruct (Strings.HasSuffix _ _); [by apply allBytes_slice_to|done].
Qed.

Lemma allBytes_ToUpper q s :
  (forall c, q c = true -> q (Strings.upperByte c) = true) ->
  allBytes q s = true -> allBytes q (Strings.ToUpper s) = true.
Proof.
  intros Hq. induction s as [|c s IH]; [done|]. cbn.
  intros [Hc Hs]%andb_prop. by rewrite (Hq _ Hc), IH.
Qed.

Lemma allBytes_Join q parts sep :
  allBytes q sep = true -> Forall (fun s => allBytes q s = true) parts ->
  allBytes q (Strings.Join parts sep) = true.
Proof.
  intros Hsep. induction parts as [|s parts IH]; [done|].
  intros [Hs Hparts]%Forall_cons. destruct parts as [|s' parts]; [done|].
  change (Strings.Join (s :: s' :: parts) sep)
    with (s ++ sep ++ Strings.Join (s' :: parts) sep).
  by rewrite !allBytes_append, Hs, Hsep, IH.
Qed.

Lemma ToUpper_idem s : Strings.ToUpper (Strings.ToUpper s) = Strings.ToUpper s.
Proof.
  induction s as [|c s IH]; [done|]. cbn. rewrite IH. f_equal.
  by destruct c as [[] [] [] [] [] [] [] []].
Qed.

Lemma endsWithSpace_append_byte x c :
  endsWithSpace (x ++ String c "") = Strings.isSpace c.
Proof.
  induction x as [|b x IH]; [done|]. rewrite append_cons.
  destruct x as [|b' x]; [done|]. rewrite append_cons in *.
  exact IH.
Qed.

Lemma TrimSpace_trimmed s :
  startsWithSpace (Strings.TrimSpace s) = false
  /\ endsWithSpace (Strings.TrimSpace s) = false.
Proof.
  unfold Strings.TrimSpace, Strings.TrimFunc. split.
  - pose proof (TrimRightFunc_head Strings.isSpace _
                  (TrimLeftFunc_head Strings.isSpace s)) as Hhead.
    by destruct (Strings.TrimRightFunc _ _).
  - generalize (Strings.TrimLeftFunc Strings.isSpace s). clear s. intros s.
    induction s as [|c s IH]; [done|]. rewrite TrimRightFunc_cons.
    destruct (Strings.TrimRightFunc Strings.isSpace s) as [|c' kept].
    + by destruct (Strings.isSpace c) eqn:Hc.
    + exact IH.
Qed.
End MoreStringFacts.

Section BracketFacts.
Local Open Scope string_scope.
Implicit Types (s t : string).

Lemma BracketIdentifier_cases s :
  let t := Strings.TrimSpace s in
  (t = "" /\ BracketIdentifier s = "")
  \/ (t <> "" /\ Strings.HasPrefix t "[" && Strings.HasSuffix t "]" = true
      /\ BracketIdentifier s = t)
  \/ (t <> "" /\ BracketIdentifier s = "[" ++ t ++ "]").
Proof.
  cbn zeta. unfold BracketIdentifier.
  destruct (String.eqb_spec (Strings.TrimSpace s) "") as [->|Hne]; [by left|].
  destruct (_ && _) eqn:Hbr; [right; left|right; right]; done.
Qed.

Lemma TrimSpace_bracketed t : Strings.TrimSpace ("[" ++ t ++ "]") = "[" ++ t ++ "]".
Proof.
  apply TrimSpace_id; [done|].
  rewrite append_cons, append_nil_l.
  destruct t as [|c t]; [done|]. rewrite append_cons.
  change (endsWithSpace (String "[" (String c (t ++ "]"))))
    with (endsWithSpace (String c (t ++ "]"))).
  rewrite <- append_cons. apply endsWithSpace_append_byte.
Qed.

(** X2. Bracketing twice is bracketing once, for every identifier. *)
Theorem BracketIdentifier_idempotent (identifier : string) :
  BracketIdentifier (BracketIdentifier identifier) = BracketIdentifier identifier.
Proof.
  destruct (BracketIdentifier_cases identifier)
    as [[_ ->]|[(Hne & Hbr & ->)|[Hne ->]]]; [done| |].
  - unfold BracketIdentifier. rewrite TrimSpace_idem, Hbr.
    by rewrite (proj2 (String.eqb_neq _ _) Hne).
  - unfold BracketIdentifier. rewrite TrimSpace_bracketed.
    rewrite <- append_assoc, HasSuffix_append, andb_true_r.
    by rewrite append_assoc.
Qed.

(** X1. [NormalizeBrackets] leaves no bracket, is idempotent, and goes
    through concatenation. *)
Theorem NormalizeBrackets_clean (s t : string) :
  bracketFree (NormalizeBrackets s) = true
  /\ NormalizeBrackets (NormalizeBrackets s) = NormalizeBrackets s
  /\ NormalizeBrackets (s ++ t) = NormalizeBrackets s ++ NormalizeBrackets t.
Proof.
  rewrite !NormalizeBrackets_removeBytes. split; [|split].
  - apply removeBytes_clean.
  - apply removeBytes_idem.
  - apply removeBytes_append.
Qed.

End BracketFacts.

Section StandardizeFacts.
Local Open Scope string_scope.



(** X5. Without brackets, [StandardizeTableName] writes no bracket,
    whatever brackets the name has, when the defaults have none. *)
Theorem StandardizeTableName_no_brackets
    (name defaultDB defaultSchema : string) :
  bracketFree defaultDB = true -> bracketFree defaultSchema = true ->
  bracketFree (StandardizeTableName name defaultDB defaultSchema false) = true.
Proof.
  intros HDB HSchema.
  destruct (ParseQualifiedName_plain name) as (Hpd & Hps & Hpt).
  apply plain_bracketFree in Hpd, Hps, Hpt.
  unfold StandardizeTableName.
  destruct (String.eqb_spec name "") as [->|_]; [done|].
  rewrite BuildQualifiedName_Join. apply allBytes_Join; [done|].
  apply Forall_map, Forall_forall. intros s [_ Hs]%list_elem_of_filter. cbn.
  revert s Hs. apply Forall_forall. repeat constructor; [| |done].
  - by destruct (String.eqb (QualifiedName.Database _) "").
  - by destruct (String.eqb (QualifiedName.Schema _) "").
Qed.

Lemma StandardizeTableName_no_brackets_witness :
  bracketFree (StandardizeTableName "[DM].[dbo].[Fact_Sales]" "DV" "dbo" false)
  = true.
Proof. by apply StandardizeTableName_no_brackets. Defined.
End StandardizeFacts.

Section FileNameFacts.
Local Open Scope string_scope.
Implicit Types (s x y : string) (c : ascii).

Lemma ExtractDatabaseName_steps filepath :
  ExtractDatabaseName filepath
  = Strings.ToUpper
      (Strings.TrimSuffix
         (Strings.TrimSuffix
            (beforeLastIndex
               (afterLastIndex (afterLastIndex filepath "/") "\") ".")
            "_schema")
         "-schema").
Proof. reflexivity. Qed.

Lemma HasPrefix_byte c x b :
  Strings.HasPrefix (String b x) (String c "") = Strings.byte_eqb b c.
Proof. cbn. apply andb_true_r. Qed.

Lemma LastIndex_from_none c s (i : Z) :
  without c s = true -> Strings.LastIndex_from i s (String c "") = (-1)%Z.
Proof.
  revert i. induction s as [|b s IH]; intros i; [done|].
  unfold without. cbn [allBytes]. intros [Hb Hs]%andb_prop.
  cbn [Strings.LastIndex_from]. rewrite (IH _ Hs), HasPrefix_byte.
  apply negb_true_iff in Hb. by rewrite Hb.
Qed.

Lemma LastIndex_from_last c x y (i : Z) :
  (0 <= i)%Z -> without c y = true ->
  Strings.LastIndex_from i (x ++ String c y) (String c "")
  = (i + Z.of_nat (Strings.len x))%Z.
Proof.
  intros Hi Hy. revert i Hi. induction x as [|b x IH]; intros i Hi.
  - rewrite append_nil_l. cbn [Strings.LastIndex_from].
    rewrite (LastIndex_from_none _ _ _ Hy), HasPrefix_byte.
    unfold Strings.byte_eqb. rewrite Ascii.eqb_refl. cbn. lia.
  - rewrite append_cons. cbn [Strings.LastIndex_from].
    rewrite IH by lia.
    change (Strings.len (String b x)) with (S (Strings.len x)).
    destruct (Z.leb_spec 0 (i + 1 + Z.of_nat (Strings.len x))); lia.
Qed.

Lemma afterLastIndex_none c s :
  without c s = true -> afterLastIndex s (String c "") = s.
Proof.
  intros Hs. unfold afterLastIndex, Strings.LastIndex.
  by rewrite (LastIndex_from_none _ _ _ Hs).
Qed.

Lemma afterLastIndex_last c x y :
  without c y = true -> afterLastIndex (x ++ String c y) (String c "") = y.
Proof.
  intros Hy. unfold afterLastIndex, Strings.LastIndex.
  rewrite (LastIndex_from_last _ _ _ _ (Z.le_refl 0) Hy).
  destruct (Z.leb_spec 0 (0 + Z.of_nat (Strings.len x))); [|lia].
  replace (Z.to_nat (0 + Z.of_nat (Strings.len x) + 1))
    with (Strings.len (x ++ String c "")) by (rewrite len_append; cbn; lia).
  rewrite <- (slice_from_append (x ++ String c "") y) at 2.
  by rewrite append_assoc.
Qed.

Lemma beforeLastIndex_none c s :
  without c s = true -> beforeLastIndex s (String c "") = s.
Proof.
  intros Hs. unfold beforeLastIndex, Strings.LastIndex.
  by rewrite (LastIndex_from_none _ _ _ Hs).
Qed.


(** A string holds no [c], or it splits at its last [c]. *)
Lemma last_byte_split c s :
  without c s = true
  \/ exists x y, s = x ++ String c y /\ without c y = true.
Proof.
  induction s as [|b s IH]; [by left|].
  destruct IH as [Hs|(x & y & -> & Hy)].
  - destruct (Strings.byte_eqb b c) eqn:Hb.
    + right. apply byte_eqb_eq in Hb as ->. by exists "", s.
    + left. unfold without in *. cbn. by rewrite Hb.
  - right. by exists (String b x), y.
Qed.

Lemma afterLastIndex_without c s :
  without c (afterLastIndex s (String c "")) = true.
Proof.
  destruct (last_byte_split c s) as [Hs|(x & y & -> & Hy)].
  - by rewrite afterLastIndex_none.
  - by rewrite afterLastIndex_last.
Qed.

Lemma afterLastIndex_append c x y :
  without c y = true ->
  afterLastIndex (x ++ y) (String c "") = afterLastIndex x (String c "") ++ y.
Proof.
  intros Hy. destruct (last_byte_split c x) as [Hx|(x1 & x2 & -> & Hx2)].
  - rewrite !afterLastIndex_none; [done..|].
    unfold without in *. by rewrite allBytes_append, Hx, Hy.
  - rewrite append_assoc, append_cons, !afterLastIndex_last; [done..|].
    unfold without in *. by rewrite allBytes_append, Hx2, Hy.
Qed.

Lemma afterLastIndex_allBytes q s sep :
  allBytes q s = true -> allBytes q (afterLastIndex s sep) = true.
Proof.
  intros Hs. unfold afterLastIndex.
  destruct (_ <=? _)%Z; [by apply allBytes_slice_from|done].
Qed.

Lemma beforeLastIndex_allBytes q s sep :
  allBytes q s = true -> allBytes q (beforeLastIndex s sep) = true.
Proof.
  intros Hs. unfold beforeLastIndex.
  destruct (_ <=? _)%Z; [by apply allBytes_slice_to|done].
Qed.

(** X6. [ExtractDatabaseName] drops the directories of a path, with
    either separator: a file name without separators gives the same
    database name behind any directory. *)
Theorem ExtractDatabaseName_directory (dir file : string) :
  without "/" file = true -> without "\" file = true ->
  ExtractDatabaseName (dir ++ "/" ++ file) = ExtractDatabaseName file
  /\ ExtractDatabaseName (dir ++ "\" ++ file) = ExtractDatabaseName file.
Proof.
  intros Hslash Hback. rewrite !ExtractDatabaseName_steps.
  rewrite !append_cons, !append_nil_l.
  rewrite (afterLastIndex_last "/" dir file Hslash).
  rewrite (afterLastIndex_none "/" file Hslash).
  split; [done|].
  rewrite (afterLastIndex_append "/" dir (String "\" file)).
  - by rewrite (afterLastIndex_last "\" _ file Hback),
      (afterLastIndex_none "\" file Hback).
  - unfold without in *. cbn. by rewrite Hslash.
Qed.

Lemma ExtractDatabaseName_directory_witness :
  ExtractDatabaseName ("/path/to" ++ "/" ++ "dm_schema.json")
  = ExtractDatabaseName "dm_schema.json"
  /\ ExtractDatabaseName ("/path/to" ++ "\" ++ "dm_schema.json")
     = ExtractDatabaseName "dm_schema.json".
Proof. by apply ExtractDatabaseName_directory. Defined.

(** X7. A database name that [ExtractDatabaseName] gives holds no path
    separator and no lower-case letter. *)
Theorem ExtractDatabaseName_clean (filepath : string) :
  let name := ExtractDatabaseName filepath in
  without "/" name = true /\ without "\" name = true
  /\ Strings.ToUpper name = name.
Proof.
  cbn zeta. rewrite ExtractDatabaseName_steps.
  split; [|split; [|apply ToUpper_idem]].
  - apply allBytes_ToUpper; [by intros [[] [] [] [] [] [] [] []]|].
    do 2 apply allBytes_TrimSuffix.
    apply beforeLastIndex_allBytes, afterLastIndex_allBytes.
    apply afterLastIndex_without.
  - apply allBytes_ToUpper; [by intros [[] [] [] [] [] [] [] []]|].
    do 2 apply allBytes_TrimSuffix.
    apply beforeLastIndex_allBytes, afterLastIndex_without.
Qed.


End FileNameFacts.

(** ** [schema/sqlparser.go] *)

Section MoreDedup.
Implicit Types (r : Relation.t) (relations : list Relation.t)
  (rangeOrder : RangeOrder).

Lemma seenStep_size (seen : gmap relKey.t Relation.t) r :
  size (seenStep seen r) <= S (size seen).
Proof.
  unfold seenStep. destruct (seen !! keyOf r) as [existing|] eqn:Hseen.
  - destruct (_ && _); [|lia]. rewrite map_size_insert, Hseen. cbn. lia.
  - rewrite map_size_insert, Hseen. lia.
Qed.

Lemma seenOf_size relations : size (seenOf relations) <= length relations.
Proof.
  induction relations as [|r relations IH] using rev_ind; [done|].
  rewrite seenOf_snoc, length_app. cbn.
  pose proof (seenStep_size (seenOf relations) r). lia.
Qed.

Lemma DeduplicateRelations_size rangeOrder relations :
  rangeOrderOk rangeOrder ->
  length (DeduplicateRelations rangeOrder relations) = size (seenOf relations).
Proof.
  intros Hok. unfold DeduplicateRelations. rewrite range_collect. cbn.
  by rewrite length_fmap, (Hok _), length_map_to_list.
Qed.

Lemma DeduplicateRelations_NoDup rangeOrder relations :
  rangeOrderOk rangeOrder ->
  NoDup (keyOf <$> DeduplicateRelations rangeOrder relations).
Proof.
  intros Hok. rewrite (DeduplicateRelations_keys _ _ Hok).
  apply NoDup_fst_map_to_list.
Qed.

Lemma candidates_absent (key : relKey.t) relations :
  key ∉ keyOf <$> relations -> candidates key relations = [].
Proof.
  unfold candidates. induction relations as [|x relations IH]; [done|].
  rewrite fmap_cons, not_elem_of_cons. intros [Hx Hrest].
  rewrite filter_cons, decide_False by done. by apply IH.
Qed.

Lemma candidates_distinct relations r :
  NoDup (keyOf <$> relations) -> r ∈ relations ->
  candidates (keyOf r) relations = [r].
Proof.
  induction relations as [|x relations IH]; [by intros _ ?%elem_of_nil|].
  rewrite fmap_cons, NoDup_cons. intros [Hx Hnodup] Hr.
  unfold candidates. rewrite filter_cons.
  apply elem_of_cons in Hr as [->|Hr].
  - rewrite decide_True by done. f_equal. by apply candidates_absent.
  - rewrite decide_False; [by apply IH|].
    intros Hkey. apply Hx. rewrite Hkey. by apply list_elem_of_fmap_2.
Qed.

Lemma survivor_singleton r : survivor [r] = Some r.
Proof. cbn. by destruct (Relation.Virtual r). Qed.

(** Relations with pairwise distinct keys are all kept. *)
Lemma dedup_distinct rangeOrder relations :
  rangeOrderOk rangeOrder -> NoDup (keyOf <$> relations) ->
  DeduplicateRelations rangeOrder relations ≡ₚ relations.
Proof.
  intros Hok Hnodup. apply NoDup_Permutation.
  - eapply NoDup_fmap_1, DeduplicateRelations_NoDup, Hok.
  - by eapply NoDup_fmap_1.
  - intros r. rewrite (DeduplicateRelations_elem _ _ _ Hok). split.
    + by intros [_ ?]%seenOf_key.
    + intros Hr. by rewrite seenOf_lookup, candidates_distinct, survivor_singleton.
Qed.

(** X9. Deduplication never lengthens the list, and it removes nothing
    from a list whose keys are pairwise distinct. *)
Theorem DeduplicateRelations_length rangeOrder relations :
  rangeOrderOk rangeOrder ->
  length (DeduplicateRelations rangeOrder relations) <= length relations
  /\ (NoDup (keyOf <$> relations) ->
      DeduplicateRelations rangeOrder relations ≡ₚ relations).
Proof.
  intros Hok. split.
  - rewrite (DeduplicateRelations_size _ _ Hok). apply seenOf_size.
  - by apply dedup_distinct.
Qed.

(** X10. Deduplicating a deduplicated list changes nothing but,
    possibly, the order. *)
Theorem DeduplicateRelations_idempotent rangeOrder rangeOrder' relations :
  rangeOrderOk rangeOrder -> rangeOrderOk rangeOrder' ->
  DeduplicateRelations rangeOrder' (DeduplicateRelations rangeOrder relations)
  ≡ₚ DeduplicateRelations rangeOrder relations.
Proof.
  intros Hok Hok'. apply dedup_distinct; [done|].
  by apply DeduplicateRelations_NoDup.
Qed.

Lemma survivor_virtual (cands : list Relation.t) r :
  survivor cands = Some r -> Relation.Virtual r = true ->
  Forall (fun c => Relation.Virtual c = true) cands.
Proof.
  intros Hr Hvirtual. apply Forall_forall. intros c Hc.
  destruct (Relation.Virtual c) eqn:Hcv; [done|].
  pose proof (survivor_explicit _ _ _ Hc Hcv Hr). congruence.
Qed.

(** X11. The order of arrival decides neither which keys survive nor
    whether the relation kept for a key is virtual. *)
Theorem DeduplicateRelations_order rangeOrder rangeOrder' relations relations' r :
  rangeOrderOk rangeOrder -> rangeOrderOk rangeOrder' ->
  relations ≡ₚ relations' ->
  r ∈ DeduplicateRelations rangeOrder relations ->
  exists r',
    r' ∈ DeduplicateRelations rangeOrder' relations'
    /\ keyOf r' = keyOf r
    /\ Relation.Virtual r' = Relation.Virtual r.
Proof.
  intros Hok Hok' Hperm Hr.
  apply (DeduplicateRelations_elem _ _ _ Hok) in Hr.
  rewrite seenOf_lookup in Hr.
  assert (candidates (keyOf r) relations ≡ₚ candidates (keyOf r) relations')
    as Hcands by (unfold candidates; by rewrite Hperm).
  pose proof (survivor_elem _ _ Hr) as Hin. rewrite Hcands in Hin.
  destruct (survivor_is_Some (candidates (keyOf r) relations')) as [r' Hr'].
  { intros Hnil. rewrite Hnil in Hin. by apply elem_of_nil in Hin. }
  pose proof (survivor_elem _ _ Hr') as Hin'.
  assert (keyOf r' = keyOf r) as Hkey
    by (unfold candidates in Hin'; by apply list_elem_of_filter in Hin' as [? _]).
  exists r'. split; [|split; [done|]].
  - apply (DeduplicateRelations_elem _ _ _ Hok').
    by rewrite seenOf_lookup, Hkey.
  - destruct (Relation.Virtual r) eqn:Hvirtual.
    + pose proof (survivor_virtual _ _ Hr Hvirtual) as Hall.
      rewrite Hcands in Hall. rewrite Forall_forall in Hall. by apply Hall.
    + exact (survivor_explicit _ _ _ Hin Hvirtual Hr').
Qed.
End MoreDedup.

Lemma DeduplicateRelations_length_witness :
  length (DeduplicateRelations map_to_list
            [ordersCustomers true; ordersProducts; ordersCustomers false])
  <= 3.
Proof.
  apply (DeduplicateRelations_length map_to_list
           [ordersCustomers true; ordersProducts; ordersCustomers false]).
  intros seen. reflexivity.
Defined.

Lemma DeduplicateRelations_idempotent_witness :
  DeduplicateRelations map_to_list
    (DeduplicateRelations map_to_list
       [ordersCustomers true; ordersProducts; ordersCustomers false])
  ≡ₚ DeduplicateRelations map_to_list
       [ordersCustomers true; ordersProducts; ordersCustomers false].
Proof.
  apply DeduplicateRelations_idempotent; intros seen; reflexivity.
Defined.

Lemma DeduplicateRelations_order_witness :
  exists r',
    r' ∈ DeduplicateRelations map_to_list
           [ordersCustomers false; ordersCustomers true; ordersProducts]
    /\ keyOf r' = keyOf (ordersCustomers false)
    /\ Relation.Virtual r' = Relation.Virtual (ordersCustomers false).
Proof.
  apply (DeduplicateRelations_order map_to_list map_to_list
           [ordersCustomers true; ordersProducts; ordersCustomers false]).
  - intros seen. reflexivity.
  - intros seen. reflexivity.
  - apply Permutation_sym. apply (Permutation_cons_append [_; _]).
  - vm_compute. first [left | right; left | right; right; left].
Defined.

Section WhitespaceFacts.
Local Open Scope string_scope.
Import Regexp.
Implicit Types (s src rest : string) (c : ascii).

Lemma greedy_Some {A} p s caps (k : @cont A) :
  (forall s' caps', is_Some (k s' caps')) -> is_Some (greedy p s caps k).
Proof.
  intros Hk. induction s as [|c s IH]; cbn; [done|].
  destruct (p c); [|done]. by destruct (greedy p s caps k).
Qed.

(** [\s+] matches at a byte exactly when the byte is a space, and then
    it takes at least that byte. *)
Lemma spacesPattern_matchAt c s :
  if perlSpace c
  then exists rest m,
         matchAt spacesPattern (String c s) = Some (rest, m)
         /\ Strings.len rest <= Strings.len s
  else matchAt spacesPattern (String c s) = None.
Proof.
  unfold matchAt. cbn [expr spacesPattern spaces1 run].
  destruct (perlSpace c); [|done].
  destruct (greedy_Some perlSpace s (replicate 1 "")
              (fun rest caps => Some (rest, <[0:=consumed (String c s) rest]> caps)))
    as [[rest m] Hgreedy]; [by eexists|].
  exists rest, m. split; [exact Hgreedy|].
  apply greedy_sound in Hgreedy as (w & s' & -> & _ & [= <- _]).
  rewrite len_append. lia.
Qed.

Lemma singleLine_append s t :
  singleLine (s ++ t) = singleLine s && singleLine t.
Proof. apply allBytes_append. Qed.

(** Replacing every run of spaces by one blank leaves one line. *)
Lemma replaceAll_singleLine src : forall skip adjacent,
  singleLine (replaceAll spacesPattern " " skip adjacent src) = true.
Proof.
  induction src as [|c src IH]; intros skip adjacent.
  - destruct skip; [|done]. cbn [replaceAll].
    change (matchAt spacesPattern "") with (@None (string * list string)). done.
  - destruct skip as [|skip]; cbn [replaceAll]; [|apply IH].
    pose proof (spacesPattern_matchAt c src) as Hmatch.
    destruct (perlSpace c) eqn:Hc.
    + destruct Hmatch as (rest & m & -> & Hlen).
      change (Strings.len (String c src)) with (S (Strings.len src)).
      destruct (S (Strings.len src) - Strings.len rest) as [|width] eqn:Hwidth;
        [lia|].
      rewrite singleLine_append, IH. done.
    + rewrite Hmatch. unfold singleLine. cbn [allBytes]. rewrite Hc.
      cbn. apply IH.
Qed.

Lemma ReplaceAllString_singleLine src :
  singleLine (ReplaceAllString spacesPattern src " ") = true.
Proof. apply replaceAll_singleLine. Qed.
End WhitespaceFacts.

Section MoreExtraction.
Local Open Scope string_scope.

Lemma classify_values clause :
  classify clause ∈ ["LEFT"; "RIGHT"; "FULL"; "INNER"].
Proof.
  unfold classify.
  destruct (containsFold clause "LEFT"); [set_solver|].
  destruct (containsFold clause "RIGHT"); [set_solver|].
  destruct (containsFold clause "FULL"); set_solver.
Qed.

Lemma joinOfColumns_shape sourceTable joinedTableStd onCondition m colMatch j :
  j ∈ joinOfColumns sourceTable joinedTableStd onCondition m colMatch ->
  factShape sourceTable j /\ JoinRelation.ToTable j = joinedTableStd.
Proof.
  unfold joinOfColumns. destruct (_ <? _)%nat; [by intros ?%elem_of_nil|].
  intros ->%list_elem_of_singleton. unfold factShape.
  cbn [JoinRelation.FromTable JoinRelation.JoinType JoinRelation.FromColumns
       JoinRelation.ToColumns JoinRelation.OnCondition JoinRelation.ToTable app].
  rewrite joinTypeOf_classify. repeat split.
  - apply classify_values.
  - apply Forall_cons. split; [|apply Forall_cons; split; [|by apply Forall_nil_2]];
      rewrite NormalizeBrackets_removeBytes; apply removeBytes_clean.
  - apply TrimSpace_allBytes, ReplaceAllString_singleLine.
  - apply TrimSpace_trimmed.
  - apply TrimSpace_trimmed.
Qed.

Lemma ExtractJoinsFromSQL_shape sqlDef sourceTable defaultDB defaultSchema
    useBrackets j :
  j ∈ ExtractJoinsFromSQL sqlDef sourceTable defaultDB defaultSchema useBrackets ->
  factShape sourceTable j.
Proof.
  intros (m & _ & Hj)%ExtractJoinsFromSQL_elem.
  unfold joinsOfMatch in Hj. destruct (_ <? _)%nat; [by apply elem_of_nil in Hj|].
  rewrite list_elem_of_In, in_flat_map in Hj. destruct Hj as (colMatch & _ & Hj).
  apply list_elem_of_In in Hj. by apply joinOfColumns_shape in Hj as [? _].
Qed.

(** X12. Every fact of [ExtractJoinsFromSQL] starts at the source table,
    has one of the four join types, names its columns without brackets and
    shows its condition as one line without whitespace at either end. *)
Theorem ExtractJoinsFromSQL_facts
    (sqlDef sourceTable defaultDB defaultSchema : string) (useBrackets : bool)
    (j : JoinRelation.t) :
  j ∈ ExtractJoinsFromSQL sqlDef sourceTable defaultDB defaultSchema useBrackets ->
  JoinRelation.FromTable j = sourceTable
  /\ JoinRelation.JoinType j ∈ ["LEFT"; "RIGHT"; "FULL"; "INNER"]
  /\ Forall (fun column => bracketFree column = true)
       (JoinRelation.FromColumns j ++ JoinRelation.ToColumns j)
  /\ singleLine (JoinRelation.OnCondition j) = true
  /\ startsWithSpace (JoinRelation.OnCondition j) = false
  /\ endsWithSpace (JoinRelation.OnCondition j) = false.
Proof. apply ExtractJoinsFromSQL_shape. Qed.

Lemma ExtractJoinsFromSQL_facts_witness :
  let j :=
    JoinRelation.mk "Orders" ["customer_id"] "[DV].[dbo].[Customers]" ["id"]
      "LEFT" "o.customer_id = c.id" in
  JoinRelation.FromTable j = "Orders"
  /\ JoinRelation.JoinType j ∈ ["LEFT"; "RIGHT"; "FULL"; "INNER"]
  /\ Forall (fun column => bracketFree column = true)
       (JoinRelation.FromColumns j ++ JoinRelation.ToColumns j)
  /\ singleLine (JoinRelation.OnCondition j) = true
  /\ startsWithSpace (JoinRelation.OnCondition j) = false
  /\ endsWithSpace (JoinRelation.OnCondition j) = false.
Proof.
  apply (ExtractJoinsFromSQL_facts multipleJoins "Orders" "DV" "dbo" true).
  vm_compute. left.
Defined.

Lemma relationsOfTable_elem defaultDB defaultSchema useBrackets table r :
  r ∈ relationsOfTable defaultDB defaultSchema useBrackets table ->
  Table.Type_ table ∈ ["VIEW"; "MATERIALIZED VIEW"; "BASE TABLE"]
  /\ Table.Def table <> ""
  /\ exists j,
       j ∈ ExtractJoinsFromSQL (Table.Def table) (Table.Name table) defaultDB
             defaultSchema useBrackets
       /\ r = virtualRelation j.
Proof.
  unfold relationsOfTable.
  destruct (String.eqb_spec (Table.Type_ table) "VIEW") as [Hview|_].
  - cbn [negb andb]. destruct (String.eqb_spec (Table.Def table) "");
      [by intros ?%elem_of_nil|].
    rewrite list_elem_of_In, in_map_iff. intros (j & <- & Hj).
    rewrite Hview. repeat split; [set_solver|done|].
    exists j. by rewrite list_elem_of_In.
  - destruct (String.eqb_spec (Table.Type_ table) "MATERIALIZED VIEW")
      as [Hmat|_].
    + cbn [negb andb]. destruct (String.eqb_spec (Table.Def table) "");
        [by intros ?%elem_of_nil|].
      rewrite list_elem_of_In, in_map_iff. intros (j & <- & Hj).
      rewrite Hmat. repeat split; [set_solver|done|].
      exists j. by rewrite list_elem_of_In.
    + destruct (String.eqb_spec (Table.Type_ table) "BASE TABLE") as [Hbase|_];
        cbn [negb andb]; [|by intros ?%elem_of_nil].
      destruct (String.eqb_spec (Table.Def table) "");
        [by intros ?%elem_of_nil|].
      rewrite list_elem_of_In, in_map_iff. intros (j & <- & Hj).
      rewrite Hbase. repeat split; [set_solver|done|].
      exists j. by rewrite list_elem_of_In.
Qed.

Lemma len_slice_to n s : Strings.len (Strings.slice_to n s) <= n.
Proof.
  revert s. induction n as [|n IH]; intros [|c s]; cbn; try lia.
  specialize (IH s). unfold Strings.len in IH. lia.
Qed.

Lemma singleLine_slice_to n s :
  singleLine s = true -> singleLine (Strings.slice_to n s) = true.
Proof. apply allBytes_slice_to. Qed.

(** X13. Every derived relation belongs to a table of the input that is
    a view or a base table and has a definition: its child is that table,
    by name alone.  Its description is the join type in brackets followed
    by at most 103 bytes of one line. *)
Theorem ExtractRelationsFromDefinitions_source
    (tables : list Table.t) (defaultDB defaultSchema : string)
    (useBrackets : bool) (r : Relation.t) :
  r ∈ ExtractRelationsFromDefinitions tables defaultDB defaultSchema useBrackets ->
  (exists table,
     table ∈ tables
     /\ Table.Type_ table ∈ ["VIEW"; "MATERIALIZED VIEW"; "BASE TABLE"]
     /\ Table.Def table <> ""
     /\ Relation.Table r = Table.named (Table.Name table))
  /\ (exists joinType shown,
        joinType ∈ ["LEFT"; "RIGHT"; "FULL"; "INNER"]
        /\ Relation.Def r = "[" ++ joinType ++ " JOIN] " ++ shown
        /\ Strings.len shown <= 103
        /\ singleLine shown = true).
Proof.
  unfold ExtractRelationsFromDefinitions.
  rewrite list_elem_of_In, in_flat_map. intros (table & Htable & Hr).
  apply list_elem_of_In in Htable, Hr.
  apply relationsOfTable_elem in Hr as (Htype & Hdef & j & Hj & ->).
  apply ExtractJoinsFromSQL_shape in Hj as (Hfrom & Htypej & _ & Hline & _ & _).
  split.
  - exists table. repeat split; try done.
    unfold virtualRelation. destruct (cardinalityOf _). cbn. by rewrite Hfrom.
  - exists (JoinRelation.JoinType j). unfold virtualRelation.
    destruct (cardinalityOf _). cbn [Relation.Def]. eexists. split; [done|].
    split; [done|].
    destruct (100 <? Strings.len (JoinRelation.OnCondition j))%nat eqn:Hlong.
    + split.
      * rewrite len_append.
        pose proof (len_slice_to 100 (JoinRelation.OnCondition j)).
        change (Strings.len "...") with 3. lia.
      * rewrite singleLine_append. by rewrite singleLine_slice_to.
    + apply Nat.ltb_ge in Hlong. split; [lia|done].
Qed.

Lemma ExtractRelationsFromDefinitions_source_witness :
  let r :=
    virtualRelation
      (JoinRelation.mk "[DV].[dbo].[OrderLines]" ["shop"] "[DV].[dbo].[Lines]"
         ["shop"] "INNER" "o.id = l.order_id AND o.shop = l.shop") in
  (exists table,
     table ∈ [compositeView]
     /\ Table.Type_ table ∈ ["VIEW"; "MATERIALIZED VIEW"; "BASE TABLE"]
     /\ Table.Def table <> ""
     /\ Relation.Table r = Table.named (Table.Name table))
  /\ (exists joinType shown,
        joinType ∈ ["LEFT"; "RIGHT"; "FULL"; "INNER"]
        /\ Relation.Def r = "[" ++ joinType ++ " JOIN] " ++ shown
        /\ Strings.len shown <= 103
        /\ singleLine shown = true).
Proof.
  apply (ExtractRelationsFromDefinitions_source [compositeView] "DV" "dbo" true).
  vm_compute. right. left.
Defined.
End MoreExtraction.

(** ** [MergeSchemas] *)

Section MoreMerge.
Local Open Scope string_scope.
Variable LoadSchemaFromJSON : string -> error + Schema.t.
Variable Repair : Schema.t -> error + Schema.t.
Variable rangeOrder : RangeOrder.
Implicit Types (config : MergeConfig.t) (merged : Schema.t)
  (stats : MergeStats.t) (jsonFiles : list string).

Lemma count_views (tables : list Table.t) (n : nat) :
  foldl (fun n t => if isView t then S n else n) n tables
  = n + length (filter (fun t => isView t = true) tables).
Proof.
  revert n. induction tables as [|t tables IH]; intros n; cbn [foldl].
  - cbn. lia.
  - rewrite IH, filter_cons. destruct (isView t) eqn:Ht.
    + rewrite decide_True by done. cbn. lia.
    + rewrite decide_False by congruence. lia.
Qed.

Lemma updateTableNames_views tables dbPrefix schemaName useBrackets :
  length (filter (fun t => isView t = true)
            (updateTableNames tables dbPrefix schemaName useBrackets))
  = length (filter (fun t => isView t = true) tables).
Proof.
  unfold updateTableNames. induction tables as [|t tables IH]; [done|].
  cbn [map]. rewrite !filter_cons.
  change (isView (updateTableName dbPrefix schemaName useBrackets t))
    with (isView t).
  destruct (decide (isView t = true)); cbn; by rewrite IH.
Qed.

Lemma mergeFile_mergedBy config merged stats jsonFile merged' stats' :
  mergeFile LoadSchemaFromJSON config (merged, stats) jsonFile
  = inr (merged', stats') ->
  exists schema,
    LoadSchemaFromJSON jsonFile = inr schema
    /\ mergedBy config [(jsonFile, schema)] merged stats merged' stats'.
Proof.
  unfold mergeFile.
  destruct (LoadSchemaFromJSON jsonFile) as [err|schema]; [done|].
  intros [= <- <-]. exists schema. split; [done|].
  split; cbn -[dbPrefixOf schemaNameOf ExtractRelationsFromDefinitions];
    rewrite ?app_nil_r; try done.
  - unfold derivedRelations, standardizedTables, standardizedRelations.
    by rewrite <- app_assoc.
  - unfold firstDriver. cbn.
    by destruct (Schema.Driver_ merged), (Schema.Driver_ schema).
  - unfold updateTableNames. by rewrite length_map.
  - rewrite count_views. by rewrite updateTableNames_views.
  - unfold updateRelations. by rewrite length_map.
  - unfold updateFunctions. by rewrite length_map.
Qed.

Lemma mergedBy_cons config doc docs merged stats merged1 stats1 merged' stats' :
  mergedBy config [doc] merged stats merged1 stats1 ->
  mergedBy config docs merged1 stats1 merged' stats' ->
  mergedBy config (doc :: docs) merged stats merged' stats'.
Proof.
  intros [] []. destruct doc as [jsonFile schema].
  split; cbn [flat_map map gatheredRelations fst snd] in *;
    rewrite ?app_nil_r in *; rewrite ?flat_map_cons, ?filter_app, ?length_app;
    try congruence; try lia.
  - rewrite by_tables1, by_tables0. by rewrite <- app_assoc.
  - rewrite by_relations1, by_relations0.
    unfold gatheredRelations. by rewrite <- !app_assoc.
  - rewrite by_functions1, by_functions0. by rewrite <- app_assoc.
  - rewrite by_driver1, by_driver0. unfold firstDriver. cbn.
    destruct (Schema.Driver_ merged); [done|].
    by destruct (Schema.Driver_ schema).
  - rewrite by_databases1, by_databases0. by rewrite <- app_assoc.
Qed.

Lemma mergeFiles_mergedBy config jsonFiles : forall merged stats merged' stats',
  mergeFiles LoadSchemaFromJSON config (merged, stats) jsonFiles
  = inr (merged', stats') ->
  (documents LoadSchemaFromJSON jsonFiles).*1 = jsonFiles
  /\ mergedBy config (documents LoadSchemaFromJSON jsonFiles)
       merged stats merged' stats'.
Proof.
  induction jsonFiles as [|jsonFile jsonFiles IH];
    intros merged stats merged' stats'; cbn [mergeFiles].
  - intros [= <- <-]. split; [done|].
    split; cbn; rewrite ?app_nil_r; try done; try lia.
    by destruct (Schema.Driver_ merged).
  - destruct (mergeFile _ _ _ jsonFile) as [err|[merged1 stats1]] eqn:Hfile;
      [done|].
    intros Hrest. apply IH in Hrest as [Hfiles Hrest].
    apply mergeFile_mergedBy in Hfile as (schema & Hload & Hfile).
    unfold documents in *. cbn [flat_map]. rewrite Hload. cbn [app].
    split; [by rewrite fmap_cons, Hfiles|].
    by eapply mergedBy_cons.
Qed.

Lemma mergeFile_load_error config acc jsonFile err :
  LoadSchemaFromJSON jsonFile = inl err ->
  mergeFile LoadSchemaFromJSON config acc jsonFile
  = inl ("failed to load schema from " ++ jsonFile ++ ": " ++ err).
Proof. intros Hload. unfold mergeFile. destruct acc. by rewrite Hload. Qed.

Lemma mergeFile_loads config acc jsonFile schema :
  LoadSchemaFromJSON jsonFile = inr schema ->
  exists acc', mergeFile LoadSchemaFromJSON config acc jsonFile = inr acc'.
Proof.
  intros Hload. unfold mergeFile. destruct acc. rewrite Hload. by eexists.
Qed.

Lemma mergeFiles_first_error config loaded jsonFile rest err : forall acc,
  Forall (fun f => exists schema, LoadSchemaFromJSON f = inr schema) loaded ->
  LoadSchemaFromJSON jsonFile = inl err ->
  mergeFiles LoadSchemaFromJSON config acc (loaded ++ jsonFile :: rest)
  = inl ("failed to load schema from " ++ jsonFile ++ ": " ++ err).
Proof.
  induction loaded as [|f loaded IH]; intros acc Hloaded Herr; cbn [app mergeFiles].
  - by rewrite (mergeFile_load_error _ _ _ _ Herr).
  - apply Forall_cons in Hloaded as [[schema Hf] Hloaded].
    destruct (mergeFile_loads config acc f schema Hf) as [acc' ->].
    by apply IH.
Qed.

Lemma mergeFiles_error config jsonFiles : forall acc e,
  mergeFiles LoadSchemaFromJSON config acc jsonFiles = inl e ->
  exists jsonFile err,
    jsonFile ∈ jsonFiles /\ LoadSchemaFromJSON jsonFile = inl err
    /\ e = "failed to load schema from " ++ jsonFile ++ ": " ++ err.
Proof.
  induction jsonFiles as [|f jsonFiles IH]; intros acc e; cbn [mergeFiles];
    [done|].
  destruct (LoadSchemaFromJSON f) as [err|schema] eqn:Hload.
  - rewrite (mergeFile_load_error _ _ _ _ Hload). intros [= <-].
    exists f, err. split; [left|done].
  - destruct (mergeFile_loads config acc f schema Hload) as [acc' ->].
    intros (g & err & Hg & Hrest)%IH. exists g, err. split; [by right|done].
Qed.

(** X14. A merge stops at the first file that does not load: its error
    names that file and wraps the error of the load, whatever comes after
    the file. *)
Theorem MergeSchemas_load_error
    (loaded : list string) (jsonFile : string) (rest : list string)
    (err : error) (config : option MergeConfig.t) :
  Forall (fun f => exists schema, LoadSchemaFromJSON f = inr schema) loaded ->
  LoadSchemaFromJSON jsonFile = inl err ->
  MergeSchemas LoadSchemaFromJSON Repair rangeOrder
    (loaded ++ jsonFile :: rest) config
  = inl ("failed to load schema from " ++ jsonFile ++ ": " ++ err).
Proof.
  intros Hloaded Herr. unfold MergeSchemas. cbn zeta.
  by rewrite (mergeFiles_first_error _ _ _ _ _ _ Hloaded Herr).
Qed.

(** X15. A merge fails for two reasons only: a file does not load, or
    the repair of the merged schema fails. *)
Theorem MergeSchemas_errors jsonFiles (config : option MergeConfig.t) (e : error) :
  MergeSchemas LoadSchemaFromJSON Repair rangeOrder jsonFiles config = inl e ->
  (exists jsonFile err,
     jsonFile ∈ jsonFiles /\ LoadSchemaFromJSON jsonFile = inl err
     /\ e = "failed to load schema from " ++ jsonFile ++ ": " ++ err)
  \/ (exists merged err,
        Repair merged = inl err
        /\ e = "failed to repair merged schema: " ++ err).
Proof.
  unfold MergeSchemas. cbn zeta.
  destruct (mergeFiles _ _ _ jsonFiles) as [e'|[merged stats]] eqn:Hfiles.
  - intros [= <-]. left. by eapply mergeFiles_error.
  - destruct (Repair _) as [err|merged'] eqn:Hrepair; [|done].
    intros [= <-]. right. by eexists _, _.
Qed.

(** X16. The statistics of a merge count what the documents hold: one
    database per file, in the order of the files; all tables, the views
    among them, all relations of the documents, all derived relations and
    all functions. *)
Theorem MergeSchemas_stats jsonFiles (config : option MergeConfig.t)
    merged stats :
  MergeSchemas LoadSchemaFromJSON Repair rangeOrder jsonFiles config
  = inr (merged, stats) ->
  let config := default (defaultConfig jsonFiles) config in
  let docs := documents LoadSchemaFromJSON jsonFiles in
  docs.*1 = jsonFiles
  /\ MergeStats.Databases stats = map (dbPrefixOf config) jsonFiles
  /\ MergeStats.TotalTables stats
     = length (flat_map (fun doc => Schema.Tables doc.2) docs)
  /\ MergeStats.TotalViews stats
     = length (filter (fun t => isView t = true)
                 (flat_map (fun doc => Schema.Tables doc.2) docs))
  /\ MergeStats.TotalViews stats <= MergeStats.TotalTables stats
  /\ MergeStats.TotalRelations stats
     = length (flat_map (fun doc => Schema.Relations doc.2) docs)
  /\ MergeStats.ExtractedRelations stats
     = length (flat_map (fun '(jsonFile, schema) =>
                           derivedRelations config jsonFile schema) docs)
  /\ MergeStats.TotalFunctions stats
     = length (flat_map (fun doc => Schema.Functions doc.2) docs).
Proof.
  unfold MergeSchemas. cbn zeta.
  replace (match config with Some c => c | None => defaultConfig jsonFiles end)
    with (default (defaultConfig jsonFiles) config) by (by destruct config).
  destruct (mergeFiles _ _ _ jsonFiles) as [err|[merged1 stats1]] eqn:Hfiles;
    [done|].
  destruct (Repair _) as [err|merged2]; [done|]. intros [= _ <-].
  apply mergeFiles_mergedBy in Hfiles as [Hdocs [Hname Hdesc Htables Hrels Hfuns Hdriver Hdbs Htt Htv Htr Hex Htf Hdd]]. cbn in *.
  repeat split; try done.
  - rewrite Hdbs.
    transitivity (map (dbPrefixOf (default (defaultConfig jsonFiles) config))
                    (documents LoadSchemaFromJSON jsonFiles).*1);
      [|by rewrite Hdocs].
    generalize (documents LoadSchemaFromJSON jsonFiles).
    generalize (default (defaultConfig jsonFiles) config). clear.
    intros cfg docs. induction docs as [|doc docs IH]; cbn; congruence.
  - rewrite Htv, Htt. apply length_filter.
Qed.

Lemma gatheredRelations_length config (docs : list (string * Schema.t)) :
  length (gatheredRelations config docs)
  = length (flat_map (fun doc => Schema.Relations doc.2) docs)
    + length (flat_map (fun '(jsonFile, schema) =>
                          derivedRelations config jsonFile schema) docs).
Proof.
  unfold gatheredRelations. induction docs as [|[f s] docs IH]; [done|].
  cbn [flat_map snd]. rewrite !length_app, IH.
  unfold standardizedRelations, updateRelations. rewrite length_map. lia.
Qed.

(** X17. The relations of a merge add up: those that are left and those
    that deduplication removed are the relations of the documents and the
    derived ones, when the repair keeps the number of relations. *)
Theorem MergeSchemas_accounting jsonFiles (config : option MergeConfig.t)
    merged stats :
  rangeOrderOk rangeOrder ->
  (forall before after,
     Repair before = inr after ->
     length (Schema.Relations after) = length (Schema.Relations before)) ->
  MergeSchemas LoadSchemaFromJSON Repair rangeOrder jsonFiles config
  = inr (merged, stats) ->
  length (Schema.Relations merged) + MergeStats.DeduplicatedCount stats
  = MergeStats.TotalRelations stats + MergeStats.ExtractedRelations stats.
Proof.
  intros Hok Hrepair. unfold MergeSchemas. cbn zeta.
  destruct (mergeFiles _ _ _ jsonFiles) as [err|[merged1 stats1]] eqn:Hfiles;
    [done|].
  destruct (Repair _) as [err|merged2] eqn:Hmerged2; [done|]. intros [= <- <-].
  apply Hrepair in Hmerged2. cbn in Hmerged2 |- *. rewrite Hmerged2.
  apply mergeFiles_mergedBy in Hfiles as [_ [Hname Hdesc Htables Hrels Hfuns Hdriver Hdbs Htt Htv Htr Hex Htf Hdd]]. cbn in *.
  rewrite Htr, Hex, Hrels.
  pose proof (seenOf_size (gatheredRelations
                             (default (defaultConfig jsonFiles) config)
                             (documents LoadSchemaFromJSON jsonFiles))) as Hle.
  rewrite <- (DeduplicateRelations_size _ _ Hok) in Hle.
  replace (match config with Some c => c | None => defaultConfig jsonFiles end)
    with (default (defaultConfig jsonFiles) config) in * by (by destruct config).
  rewrite gatheredRelations_length in *.
  lia.
Qed.

Lemma MergeSchemas_before jsonFiles (config : option MergeConfig.t)
    merged stats :
  MergeSchemas LoadSchemaFromJSON Repair rangeOrder jsonFiles config
  = inr (merged, stats) ->
  let config := default (defaultConfig jsonFiles) config in
  let docs := documents LoadSchemaFromJSON jsonFiles in
  exists before,
    Repair before = inr merged
    /\ Schema.Name before = MergeConfig.Name config
    /\ Schema.Desc before = MergeConfig.Description config
    /\ Schema.Tables before
       = flat_map (fun '(jsonFile, schema) =>
                     standardizedTables config jsonFile schema) docs
    /\ Schema.Relations before
       = DeduplicateRelations rangeOrder (gatheredRelations config docs)
    /\ Schema.Functions before
       = flat_map (fun '(jsonFile, schema) =>
                     standardizedFunctions config jsonFile schema) docs
    /\ Schema.Driver_ before = firstDriver docs.
Proof.
  unfold MergeSchemas. cbn zeta.
  replace (match config with Some c => c | None => defaultConfig jsonFiles end)
    with (default (defaultConfig jsonFiles) config) by (by destruct config).
  destruct (mergeFiles _ _ _ jsonFiles) as [err|[merged1 stats1]] eqn:Hfiles;
    [done|].
  destruct (Repair _) as [err|merged2] eqn:Hrepair; [done|]. intros [= <- _].
  apply mergeFiles_mergedBy in Hfiles
    as [_ [Hname Hdesc Htables Hrels Hfuns Hdriver Hdbs Htt Htv Htr Hex Htf Hdd]].
  cbn in *.
  eexists. split; [exact Hrepair|]. cbn.
  by rewrite Hname, Hdesc, Htables, Hrels, Hfuns, Hdriver.
Qed.

(** X18. The schema that a merge hands to the repair has the name and the
    description of the configuration, the standardized tables and
    functions of the documents in the order of the files, the
    deduplicated relations, and the driver of the first document that has
    one. *)
Theorem MergeSchemas_repaired jsonFiles (config : option MergeConfig.t)
    merged stats :
  MergeSchemas LoadSchemaFromJSON Repair rangeOrder jsonFiles config
  = inr (merged, stats) ->
  let config := default (defaultConfig jsonFiles) config in
  let docs := documents LoadSchemaFromJSON jsonFiles in
  exists before,
    Repair before = inr merged
    /\ Schema.Name before = MergeConfig.Name config
    /\ Schema.Desc before = MergeConfig.Description config
    /\ Schema.Tables before
       = flat_map (fun '(jsonFile, schema) =>
                     standardizedTables config jsonFile schema) docs
    /\ Schema.Relations before
       = DeduplicateRelations rangeOrder (gatheredRelations config docs)
    /\ Schema.Functions before
       = flat_map (fun '(jsonFile, schema) =>
                     standardizedFunctions config jsonFile schema) docs
    /\ Schema.Driver_ before = firstDriver docs.
Proof. apply MergeSchemas_before. Qed.
End MoreMerge.

Lemma MergeSchemas_load_error_witness :
  MergeSchemas twoDocuments inr map_to_list
    (["dv_schema.json"] ++ "missing.json" :: ["dm_schema.json"]) None
  = inl ("failed to load schema from " ++ "missing.json" ++ ": "
         ++ "open: no such file or directory")%string.
Proof.
  apply MergeSchemas_load_error; [|reflexivity].
  apply Forall_cons. split; [by eexists|by apply Forall_nil_2].
Defined.

Lemma MergeSchemas_errors_witness :
  (exists jsonFile err,
     jsonFile ∈ ["dv_schema.json"; "missing.json"]
     /\ twoDocuments jsonFile = inl err
     /\ ("failed to load schema from missing.json: "
         ++ "open: no such file or directory")%string
        = ("failed to load schema from " ++ jsonFile ++ ": " ++ err)%string)
  \/ (exists merged err,
        @inr error Schema.t merged = inl err
        /\ ("failed to load schema from missing.json: "
            ++ "open: no such file or directory")%string
           = ("failed to repair merged schema: " ++ err)%string).
Proof.
  apply (MergeSchemas_errors twoDocuments inr map_to_list
           ["dv_schema.json"; "missing.json"] None).
  reflexivity.
Defined.

Lemma MergeSchemas_stats_witness :
  exists merged stats,
    MergeSchemas twoDocuments inr map_to_list
      ["dv_schema.json"; "dm_schema.json"] None = inr (merged, stats)
    /\ MergeStats.Databases stats
       = map (dbPrefixOf (defaultConfig ["dv_schema.json"; "dm_schema.json"]))
           ["dv_schema.json"; "dm_schema.json"]
    /\ MergeStats.TotalViews stats <= MergeStats.TotalTables stats.
Proof.
  destruct (MergeSchemas twoDocuments inr map_to_list
              ["dv_schema.json"; "dm_schema.json"] None)
    as [err|[merged stats]] eqn:Hmerge; [by vm_compute in Hmerge|].
  exists merged, stats. split; [done|].
  destruct (MergeSchemas_stats twoDocuments inr map_to_list
              ["dv_schema.json"; "dm_schema.json"] None merged stats Hmerge) as (_ & Hdatabases & _ & _ & Hviews & _).
  by split.
Defined.

Lemma MergeSchemas_accounting_witness :
  exists merged stats,
    MergeSchemas twoDocuments inr map_to_list
      ["dv_schema.json"; "dm_schema.json"] None = inr (merged, stats)
    /\ length (Schema.Relations merged) + MergeStats.DeduplicatedCount stats
       = MergeStats.TotalRelations stats + MergeStats.ExtractedRelations stats.
Proof.
  destruct (MergeSchemas twoDocuments inr map_to_list
              ["dv_schema.json"; "dm_schema.json"] None)
    as [err|[merged stats]] eqn:Hmerge; [by vm_compute in Hmerge|].
  exists merged, stats. split; [done|].
  apply (MergeSchemas_accounting twoDocuments inr map_to_list
           ["dv_schema.json"; "dm_schema.json"] None).
  - intros seen. reflexivity.
  - by intros before after [= ->].
  - exact Hmerge.
Defined.

Lemma MergeSchemas_repaired_witness :
  exists merged stats,
    MergeSchemas twoDocuments inr map_to_list
      ["dv_schema.json"; "dm_schema.json"] None = inr (merged, stats)
    /\ exists before,
         @inr error Schema.t before = inr merged
         /\ Schema.Name before = "Combined Schema"
         /\ Schema.Driver_ before = None.
Proof.
  destruct (MergeSchemas twoDocuments inr map_to_list
              ["dv_schema.json"; "dm_schema.json"] None)
    as [err|[merged stats]] eqn:Hmerge; [by vm_compute in Hmerge|].
  exists merged, stats. split; [done|].
  destruct (MergeSchemas_repaired twoDocuments inr map_to_list
              ["dv_schema.json"; "dm_schema.json"] None merged stats Hmerge)
    as (before & Hrepair & Hname & _ & _ & _ & _ & Hdriver).
  exists before. by repeat split.
Defined.

Section SameDatabase.
Local Open Scope string_scope.

(** A name without a database of its own parses, once standardized, to no
    database or to the prefix. *)
Lemma StandardizeTableName_database name dbPrefix schemaName useBrackets :
  plain dbPrefix = true -> plain schemaName = true ->
  QualifiedName.Database (ParseQualifiedName name) = "" ->
  let database :=
    QualifiedName.Database
      (ParseQualifiedName
         (StandardizeTableName name dbPrefix schemaName useBrackets)) in
  database = "" \/ database = readBack useBrackets dbPrefix.
Proof.
  intros HplainDB HplainSchema Hnone. cbn zeta.
  destruct (ParseQualifiedName_plain name) as (_ & Hps & Hpt).
  unfold StandardizeTableName.
  destruct (String.eqb_spec name "") as [->|_]; [by left|].
  rewrite Hnone. cbn [String.eqb].
  set (schema := if String.eqb _ "" then schemaName else _).
  assert (plain schema = true) as Hschema
    by (subst schema; by destruct (String.eqb _ "")).
  rewrite BuildQualifiedName_Join, !filter_cons, filter_nil.
  destruct (decide (dbPrefix <> "")), (decide (schema <> "")),
    (decide (QualifiedName.Table (ParseQualifiedName name) <> ""));
    try (rewrite ParseQualifiedName_Join
           by (done || by repeat (apply Forall_cons; split)));
    try (by left); by right.
Qed.

(** X19. A relation whose two names carry no database never counts as
    a cross-database relation, once [updateRelations] has standardized it
    with a plain prefix and a plain schema name. *)
Theorem updateRelation_same_database
    (dbPrefix schemaName : string) (useBrackets : bool) (relation : Relation.t) :
  plain dbPrefix = true -> plain schemaName = true ->
  QualifiedName.Database
    (ParseQualifiedName (Table.Name (Relation.Table relation))) = "" ->
  QualifiedName.Database
    (ParseQualifiedName (Table.Name (Relation.ParentTable relation))) = "" ->
  crossesDatabases (updateRelation dbPrefix schemaName useBrackets relation)
  = false.
Proof.
  intros HplainDB HplainSchema Hchild Hparent.
  unfold crossesDatabases, updateRelation. cbn zeta.
  cbn [Relation.Table Relation.ParentTable Table.Name Table.named].
  rewrite Hchild, Hparent. cbn [String.eqb].
  destruct (StandardizeTableName_database _ _ _ useBrackets HplainDB
              HplainSchema Hchild) as [->| ->]; [done|].
  destruct (StandardizeTableName_database _ _ _ useBrackets HplainDB
              HplainSchema Hparent) as [->| ->].
  - cbn. by rewrite andb_false_r.
  - by rewrite String.eqb_refl, andb_false_r.
Qed.

Lemma updateRelation_same_database_witness :
  crossesDatabases
    (updateRelation "DV" "dbo" true
       (Relation.mk (Table.named "Orders") [Column.mk "customer_id"] ZeroOrMore
          (Table.named "sales.Customers") [Column.mk "id"] ExactlyOne "" false))
  = false.
Proof. by apply updateRelation_same_database. Defined.
End SameDatabase.

(** ** [ValidateMergedSchema] *)

Set Warnings "-clear-no-such-hyp".

Section Validation.
Local Open Scope string_scope.

Implicit Types (tableNames databases missingTables : gset string).

Lemma noteDatabase_elem databases name db :
  db ∈ noteDatabase databases name
  <-> db ∈ databases
      \/ (db <> "" /\ QualifiedName.Database (ParseQualifiedName name) = db).
Proof.
  unfold noteDatabase.
  destruct (String.eqb_spec (QualifiedName.Database (ParseQualifiedName name)) "")
    as [Hnone|Hsome]; cbn [negb].
  - rewrite Hnone. naive_solver.
  - rewrite elem_of_union, elem_of_singleton. naive_solver.
Qed.

Lemma indexTable_names tables : forall acc name,
  name ∈ (foldl indexTable acc tables).1
  <-> name ∈ acc.1 \/ name ∈ map Table.Name tables.
Proof.
  induction tables as [|table tables IH]; intros [tableNames databases] name;
    cbn [foldl map].
  - rewrite elem_of_nil. naive_solver.
  - rewrite IH. cbn [indexTable fst].
    rewrite elem_of_union, elem_of_singleton, elem_of_cons. naive_solver.
Qed.

Lemma indexTable_databases tables : forall acc db,
  db ∈ (foldl indexTable acc tables).2
  <-> db ∈ acc.2
      \/ (db <> ""
          /\ exists table, table ∈ tables
             /\ QualifiedName.Database (ParseQualifiedName (Table.Name table))
                = db).
Proof.
  induction tables as [|table tables IH]; intros [tableNames databases] db;
    cbn [foldl].
  - split; [by left|]. intros [?|(_ & table & Hin & _)]; [done|].
    by apply elem_of_nil in Hin.
  - rewrite IH. cbn [indexTable snd]. rewrite noteDatabase_elem.
    setoid_rewrite elem_of_cons. naive_solver.
Qed.

Lemma countRelation_count relations : forall virtualRelations fkRelations,
  foldl countRelation (virtualRelations, fkRelations) relations
  = (virtualRelations
     + length (filter (fun r => Relation.Virtual r = true) relations),
     fkRelations
     + length (filter (fun r => Relation.Virtual r = false) relations)).
Proof.
  induction relations as [|relation relations IH]; intros v f; cbn [foldl].
  - cbn. f_equal; lia.
  - unfold countRelation at 2. rewrite !filter_cons.
    destruct (Relation.Virtual relation) eqn:Hvirtual; rewrite IH;
      [rewrite decide_True by done; rewrite decide_False by done
      |rewrite decide_False by done; rewrite decide_True by done];
      cbn [length]; f_equal; lia.
Qed.

Lemma filter_complement (relations : list Relation.t) :
  length (filter (fun r => Relation.Virtual r = true) relations)
  + length (filter (fun r => Relation.Virtual r = false) relations)
  = length relations.
Proof.
  induction relations as [|relation relations IH]; [done|].
  rewrite !filter_cons.
  destruct (Relation.Virtual relation);
    [rewrite decide_True by done; rewrite decide_False by done
    |rewrite decide_False by done; rewrite decide_True by done];
    cbn [length]; lia.
Qed.

Lemma checkRelation_databases tableNames relations : forall acc db,
  db ∈ (foldl (checkRelation tableNames) acc relations).1.1
  <-> db ∈ acc.1.1
      \/ (db <> ""
          /\ exists relation, relation ∈ relations
             /\ (QualifiedName.Database
                   (ParseQualifiedName (Table.Name (Relation.Table relation)))
                 = db
                 \/ QualifiedName.Database
                      (ParseQualifiedName
                         (Table.Name (Relation.ParentTable relation)))
                    = db)).
Proof.
  induction relations as [|relation relations IH];
    intros [[databases missingTables] brokenRelations] db; cbn [foldl].
  - split; [by left|]. intros [?|(_ & relation & Hin & _)]; [done|].
    by apply elem_of_nil in Hin.
  - rewrite IH. unfold checkRelation. cbn zeta.
    repeat match goal with |- context [if ?b then _ else _] => destruct b end;
      cbn [fst]; rewrite !noteDatabase_elem; setoid_rewrite elem_of_cons;
      naive_solver.
Qed.

Lemma checkRelation_missing tableNames relations : forall acc name,
  name ∈ (foldl (checkRelation tableNames) acc relations).1.2
  <-> name ∈ acc.1.2
      \/ ((name ∉ tableNames)
          /\ exists relation, relation ∈ relations
             /\ (name = Table.Name (Relation.Table relation)
                 \/ name = Table.Name (Relation.ParentTable relation))).
Proof.
  induction relations as [|relation relations IH];
    intros [[databases missingTables] brokenRelations] name; cbn [foldl].
  - split; [by left|]. intros [?|(_ & relation & Hin & _)]; [done|].
    by apply elem_of_nil in Hin.
  - rewrite IH. unfold checkRelation. cbn zeta.
    do 2 case_bool_decide; cbn [negb fst snd];
      rewrite ?elem_of_union, ?elem_of_singleton; setoid_rewrite elem_of_cons;
      naive_solver.
Qed.

Lemma checkRelation_broken tableNames relations : forall acc b,
  b ∈ (foldl (checkRelation tableNames) acc relations).2
  <-> b ∈ acc.2
      \/ exists relation, relation ∈ relations
         /\ (BrokenRelation.missing b ∉ tableNames)
         /\ (BrokenRelation.missing b = Table.Name (Relation.Table relation)
             \/ BrokenRelation.missing b
                = Table.Name (Relation.ParentTable relation))
         /\ BrokenRelation.relation b
            = Table.Name (Relation.Table relation) ++ " -> "
              ++ Table.Name (Relation.ParentTable relation)
         /\ BrokenRelation.virtual b = Relation.Virtual relation.
Proof.
  induction relations as [|relation relations IH];
    intros [[databases missingTables] brokenRelations] b; cbn [foldl].
  - split; [by left|]. intros [?|(relation & Hin & _)]; [done|].
    by apply elem_of_nil in Hin.
  - rewrite IH. unfold checkRelation. cbn zeta.
    do 2 case_bool_decide; cbn [negb fst snd];
      rewrite ?elem_of_app, ?list_elem_of_singleton;
      setoid_rewrite elem_of_cons; destruct b as [arrow missing virtual];
      cbn [BrokenRelation.missing BrokenRelation.relation BrokenRelation.virtual];
      naive_solver.
Qed.

Lemma ValidateMergedSchema_fields setOrder schema :
  let tableNames := (foldl indexTable (∅, ∅) (Schema.Tables schema)).1 in
  let databases := (foldl indexTable (∅, ∅) (Schema.Tables schema)).2 in
  let counts := foldl countRelation (0, 0) (Schema.Relations schema) in
  let checked :=
    foldl (checkRelation tableNames) (databases, ∅, [])
      (Schema.Relations schema) in
  ValidateMergedSchema setOrder schema
  = ValidationResults.mk (length (Schema.Tables schema))
      (length (Schema.Relations schema)) counts.1 counts.2 checked.2
      (setOrder checked.1.2) (setOrder checked.1.1).
Proof.
  unfold ValidateMergedSchema. cbn zeta.
  destruct (foldl indexTable _ _) as [tableNames databases]. cbn [fst snd].
  destruct (foldl countRelation _ _) as [virtualRelations fkRelations].
  by destruct (foldl (checkRelation tableNames) _ _)
    as [[databases' missingTables] brokenRelations].
Qed.

Lemma broken_relations_elem setOrder schema b :
  b ∈ ValidationResults.broken_relations (ValidateMergedSchema setOrder schema)
  <-> exists relation, relation ∈ Schema.Relations schema
      /\ (BrokenRelation.missing b ∉ map Table.Name (Schema.Tables schema))
      /\ (BrokenRelation.missing b = Table.Name (Relation.Table relation)
          \/ BrokenRelation.missing b
             = Table.Name (Relation.ParentTable relation))
      /\ BrokenRelation.relation b
         = Table.Name (Relation.Table relation) ++ " -> "
           ++ Table.Name (Relation.ParentTable relation)
      /\ BrokenRelation.virtual b = Relation.Virtual relation.
Proof.
  rewrite ValidateMergedSchema_fields. cbn zeta.
  cbn [ValidationResults.broken_relations]. rewrite checkRelation_broken.
  cbn [snd]. rewrite elem_of_nil.
  assert (forall name,
            name ∈ (foldl indexTable (∅, ∅) (Schema.Tables schema)).1
            <-> name ∈ map Table.Name (Schema.Tables schema)) as Hnames.
  { intros name. rewrite indexTable_names. cbn [fst]. set_solver. }
  setoid_rewrite Hnames. naive_solver.
Qed.

Lemma missing_tables_elem setOrder schema name :
  setOrderOk setOrder ->
  name ∈ ValidationResults.missing_tables (ValidateMergedSchema setOrder schema)
  <-> (name ∉ map Table.Name (Schema.Tables schema))
      /\ exists relation, relation ∈ Schema.Relations schema
         /\ (name = Table.Name (Relation.Table relation)
             \/ name = Table.Name (Relation.ParentTable relation)).
Proof.
  intros Horder. rewrite ValidateMergedSchema_fields. cbn zeta.
  cbn [ValidationResults.missing_tables]. rewrite (Horder _), elem_of_elements.
  rewrite checkRelation_missing. cbn [fst snd]. rewrite indexTable_names.
  cbn [fst]. set_solver.
Qed.

(** X20. Validation counts every relation once, as virtual or as a
    foreign key: the two counts add up to the number of relations. *)
Theorem ValidateMergedSchema_counts (setOrder : SetOrder) (schema : Schema.t) :
  let results := ValidateMergedSchema setOrder schema in
  ValidationResults.virtual_relations results
  = length (filter (fun r => Relation.Virtual r = true) (Schema.Relations schema))
  /\ ValidationResults.fk_relations results
     = length (filter (fun r => Relation.Virtual r = false)
                 (Schema.Relations schema))
  /\ ValidationResults.virtual_relations results
     + ValidationResults.fk_relations results
     = ValidationResults.total_relations results.
Proof.
  rewrite ValidateMergedSchema_fields. cbn zeta.
  cbn [ValidationResults.virtual_relations ValidationResults.fk_relations
       ValidationResults.total_relations].
  rewrite countRelation_count. cbn [fst snd Nat.add].
  by rewrite filter_complement.
Qed.

(** X21. The broken relations are exactly the reports of a relation of
    the schema with an end that is no table of the schema: the report
    names the relation as [table -> parent], the missing end, and whether
    the relation is virtual. *)
Theorem ValidateMergedSchema_broken (setOrder : SetOrder) (schema : Schema.t)
    (b : BrokenRelation.t) :
  b ∈ ValidationResults.broken_relations (ValidateMergedSchema setOrder schema)
  <-> exists relation, relation ∈ Schema.Relations schema
      /\ (BrokenRelation.missing b ∉ map Table.Name (Schema.Tables schema))
      /\ (BrokenRelation.missing b = Table.Name (Relation.Table relation)
          \/ BrokenRelation.missing b
             = Table.Name (Relation.ParentTable relation))
      /\ BrokenRelation.relation b
         = Table.Name (Relation.Table relation) ++ " -> "
           ++ Table.Name (Relation.ParentTable relation)
      /\ BrokenRelation.virtual b = Relation.Virtual relation.
Proof. apply broken_relations_elem. Qed.

(** X22. Validation reports nothing broken and nothing missing exactly
    when both ends of every relation are tables of the schema. *)
Theorem ValidateMergedSchema_closed (setOrder : SetOrder) (schema : Schema.t) :
  setOrderOk setOrder ->
  let results := ValidateMergedSchema setOrder schema in
  let closed :=
    forall relation, relation ∈ Schema.Relations schema ->
      Table.Name (Relation.Table relation)
        ∈ map Table.Name (Schema.Tables schema)
      /\ Table.Name (Relation.ParentTable relation)
           ∈ map Table.Name (Schema.Tables schema) in
  (ValidationResults.broken_relations results = [] <-> closed)
  /\ (ValidationResults.missing_tables results = [] <-> closed).
Proof.
  intros Horder. cbn zeta. split.
  - split.
    + intros Hnone relation Hin.
      split; apply dec_stable; intros Hmissing.
      * assert (BrokenRelation.mk
                  (Table.Name (Relation.Table relation) ++ " -> "
                   ++ Table.Name (Relation.ParentTable relation))
                  (Table.Name (Relation.Table relation))
                  (Relation.Virtual relation)
                ∈ ValidationResults.broken_relations
                    (ValidateMergedSchema setOrder schema)) as Hb
          by (apply broken_relations_elem; exists relation; cbn; naive_solver).
        rewrite Hnone in Hb. by apply elem_of_nil in Hb.
      * assert (BrokenRelation.mk
                  (Table.Name (Relation.Table relation) ++ " -> "
                   ++ Table.Name (Relation.ParentTable relation))
                  (Table.Name (Relation.ParentTable relation))
                  (Relation.Virtual relation)
                ∈ ValidationResults.broken_relations
                    (ValidateMergedSchema setOrder schema)) as Hb
          by (apply broken_relations_elem; exists relation; cbn; naive_solver).
        rewrite Hnone in Hb. by apply elem_of_nil in Hb.
    + intros Hclosed.
      destruct (ValidationResults.broken_relations _) as [|b rest] eqn:Hbroken;
        [done|].
      assert (b ∈ ValidationResults.broken_relations
                    (ValidateMergedSchema setOrder schema)) as Hb
        by (rewrite Hbroken; left).
      apply broken_relations_elem in Hb
        as (relation & Hin & Hmissing & [Hend|Hend] & _);
        rewrite Hend in Hmissing; destruct (Hclosed _ Hin); done.
  - split.
    + intros Hnone relation Hin.
      split; apply dec_stable; intros Hmissing.
      * assert (Table.Name (Relation.Table relation)
                ∈ ValidationResults.missing_tables
                    (ValidateMergedSchema setOrder schema)) as Hm
          by (apply missing_tables_elem; naive_solver).
        rewrite Hnone in Hm. by apply elem_of_nil in Hm.
      * assert (Table.Name (Relation.ParentTable relation)
                ∈ ValidationResults.missing_tables
                    (ValidateMergedSchema setOrder schema)) as Hm
          by (apply missing_tables_elem; naive_solver).
        rewrite Hnone in Hm. by apply elem_of_nil in Hm.
    + intros Hclosed.
      destruct (ValidationResults.missing_tables _) as [|name rest] eqn:Hlist;
        [done|].
      assert (name ∈ ValidationResults.missing_tables
                       (ValidateMergedSchema setOrder schema)) as Hm
        by (rewrite Hlist; left).
      apply missing_tables_elem in Hm
        as (Hmissing & relation & Hin & [Hend|Hend]); [| |done];
        rewrite Hend in Hmissing; destruct (Hclosed _ Hin); done.
Qed.

(** X23. The missing tables are, each once, the names that the broken
    relations miss. *)
Theorem ValidateMergedSchema_missing (setOrder : SetOrder) (schema : Schema.t) :
  setOrderOk setOrder ->
  let results := ValidateMergedSchema setOrder schema in
  NoDup (ValidationResults.missing_tables results)
  /\ forall name,
       name ∈ ValidationResults.missing_tables results
       <-> name ∈ map BrokenRelation.missing
                    (ValidationResults.broken_relations results).
Proof.
  intros Horder. cbn zeta. split.
  - rewrite ValidateMergedSchema_fields. cbn zeta.
    cbn [ValidationResults.missing_tables]. rewrite (Horder _).
    apply NoDup_elements.
  - intros name. rewrite missing_tables_elem by done.
    change (map BrokenRelation.missing ?l) with (BrokenRelation.missing <$> l).
    rewrite list_elem_of_fmap. setoid_rewrite broken_relations_elem. split.
    + intros (Hmissing & relation & Hin & Hend).
      exists (BrokenRelation.mk
                (Table.Name (Relation.Table relation) ++ " -> "
                 ++ Table.Name (Relation.ParentTable relation))
                name (Relation.Virtual relation)).
      split; [done|]. exists relation. cbn. naive_solver.
    + intros (b & -> & relation & Hin & Hmissing & Hend & _). naive_solver.
Qed.

(** X24. The databases that validation lists are, each once, the
    databases named by a table of the schema or by an end of one of its
    relations; a name without a database adds none. *)
Theorem ValidateMergedSchema_databases (setOrder : SetOrder) (schema : Schema.t) :
  setOrderOk setOrder ->
  let results := ValidateMergedSchema setOrder schema in
  let databaseOf name := QualifiedName.Database (ParseQualifiedName name) in
  NoDup (ValidationResults.databases results)
  /\ forall db,
       db ∈ ValidationResults.databases results
       <-> db <> ""
           /\ ((exists table, table ∈ Schema.Tables schema
                  /\ databaseOf (Table.Name table) = db)
               \/ (exists relation, relation ∈ Schema.Relations schema
                     /\ (databaseOf (Table.Name (Relation.Table relation)) = db
                         \/ databaseOf
                              (Table.Name (Relation.ParentTable relation))
                            = db))).
Proof.
  intros Horder. cbn zeta. rewrite ValidateMergedSchema_fields. cbn zeta.
  cbn [ValidationResults.databases]. split.
  - rewrite (Horder _). apply NoDup_elements.
  - intros db. rewrite (Horder _), elem_of_elements, checkRelation_databases.
    cbn [fst snd]. rewrite indexTable_databases. cbn [snd]. set_solver.
Qed.
End Validation.

Lemma ValidateMergedSchema_closed_witness :
  let results := ValidateMergedSchema elements danglingSchema in
  let closed :=
    forall relation, relation ∈ Schema.Relations danglingSchema ->
      Table.Name (Relation.Table relation)
        ∈ map Table.Name (Schema.Tables danglingSchema)
      /\ Table.Name (Relation.ParentTable relation)
           ∈ map Table.Name (Schema.Tables danglingSchema) in
  (ValidationResults.broken_relations results = [] <-> closed)
  /\ (ValidationResults.missing_tables results = [] <-> closed).
Proof.
  apply (ValidateMergedSchema_closed elements danglingSchema).
  intros names. reflexivity.
Defined.

Lemma ValidateMergedSchema_missing_witness :
  let results := ValidateMergedSchema elements danglingSchema in
  NoDup (ValidationResults.missing_tables results)
  /\ forall name,
       name ∈ ValidationResults.missing_tables results
       <-> name ∈ map BrokenRelation.missing
                    (ValidationResults.broken_relations results).
Proof.
  apply (ValidateMergedSchema_missing elements danglingSchema).
  intros names. reflexivity.
Defined.

Lemma ValidateMergedSchema_databases_witness :
  "PIM"%string
  ∈ ValidationResults.databases (ValidateMergedSchema elements danglingSchema).
Proof.
  apply (ValidateMergedSchema_databases elements danglingSchema);
    [intros names; reflexivity|].
  split; [done|]. right.
  exists (Relation.mk (Table.named "DV.dbo.Orders") [Column.mk "product_id"]
            ExactlyOne (Table.named "PIM.dbo.Products") [Column.mk "id"]
            ZeroOrMore "[INNER JOIN] o.product_id = p.id" true).
  split; [|by right]. apply elem_of_cons. right. apply elem_of_cons. by left.
Defined.

(** ** The [merge] command *)

Section Command.
Local Open Scope string_scope.

Variable LoadSchemaFromJSON : string -> error + Schema.t.
Variable Repair : Schema.t -> error + Schema.t.
Variable rangeOrder : RangeOrder.

Lemma genSplitN_colon_none s :
  without ":" s = true -> StringsN.genSplitN ":" 2 0 s = [s].
Proof.
  induction s as [|c s IH]; [done|]. unfold without. cbn [allBytes].
  intros [Hc Hs]%andb_prop. cbn [StringsN.genSplitN Strings.HasPrefix].
  apply negb_true_iff in Hc. rewrite Hc. cbn [andb].
  by rewrite (IH Hs).
Qed.

Lemma genSplitN_colon_first x y :
  without ":" x = true -> StringsN.genSplitN ":" 2 0 (x ++ ":" ++ y) = [x; y].
Proof.
  induction x as [|c x IH].
  - intros _. rewrite append_nil_l, append_cons, append_nil_l.
    cbn [StringsN.genSplitN Strings.HasPrefix Strings.byte_eqb].
    by destruct y.
  - unfold without. cbn [allBytes]. intros [Hc Hx]%andb_prop.
    rewrite append_cons. cbn [StringsN.genSplitN Strings.HasPrefix].
    apply negb_true_iff in Hc. rewrite Hc. cbn [andb].
    by rewrite (IH Hx).
Qed.

Lemma Contains_colon s :
  Strings.Contains s ":" = true ->
  exists x y, without ":" x = true /\ s = x ++ ":" ++ y.
Proof.
  induction s as [|c s IH]; [done|]. cbn [Strings.Contains Strings.HasPrefix].
  rewrite andb_true_r. destruct (Strings.byte_eqb c ":") eqn:Hc.
  - intros _. apply byte_eqb_eq in Hc as ->. by exists "", s.
  - cbn [orb]. intros (x & y & Hx & ->)%IH. exists (String c x), y.
    split; [|by rewrite append_cons]. unfold without. cbn [allBytes].
    by rewrite Hc.
Qed.

Lemma Contains_colon_none s :
  Strings.Contains s ":" = false -> without ":" s = true.
Proof.
  induction s as [|c s IH]; [done|]. cbn [Strings.Contains Strings.HasPrefix].
  rewrite andb_true_r. intros [Hc Hs]%orb_false_elim. unfold without.
  cbn [allBytes]. rewrite Hc. by apply IH.
Qed.

Lemma parseMappings_entry x y rest dbMapping :
  without ":" x = true ->
  parseMappings ((x ++ ":" ++ y) :: rest) dbMapping
  = parseMappings rest (<[x := y]> dbMapping).
Proof.
  intros Hx. cbn [parseMappings].
  change (StringsN.SplitN (x ++ ":" ++ y) ":" 2)
    with (StringsN.genSplitN ":" 2 0 (x ++ ":" ++ y)).
  by rewrite genSplitN_colon_first.
Qed.

Lemma parseMappings_no_colon mapping rest dbMapping :
  Strings.Contains mapping ":" = false ->
  parseMappings (mapping :: rest) dbMapping
  = inl ("invalid database mapping format: " ++ mapping
         ++ " (expected filepath:dbname)").
Proof.
  intros Hnone%Contains_colon_none. cbn [parseMappings].
  change (StringsN.SplitN mapping ":" 2)
    with (StringsN.genSplitN ":" 2 0 mapping).
  by rewrite genSplitN_colon_none.
Qed.


Lemma parseMappings_entries (entries : list (string * string)) : forall earlier,
  Forall (fun entry => without ":" entry.1 = true) entries ->
  parseMappings (map mappingFlag entries) (list_to_map earlier)
  = inr (list_to_map (reverse entries ++ earlier)).
Proof.
  induction entries as [|[x y] entries IH]; intros earlier Hentries; [done|].
  apply Forall_cons in Hentries as [Hx Hentries]. cbn [map].
  unfold mappingFlag at 1. cbn [fst snd].
  rewrite parseMappings_entry by done.
  change (<[x := y]> (list_to_map earlier))
    with (list_to_map (M := gmap string string) ((x, y) :: earlier)).
  rewrite IH by done. by rewrite reverse_cons, <- app_assoc.
Qed.

(** X25. A mapping is split at its first colon, so the database name may
    hold colons and the file may not; of two mappings for one file the
    later one counts. *)
Theorem parseMappings_first_colon (entries : list (string * string)) :
  Forall (fun entry => without ":" entry.1 = true) entries ->
  parseMappings (map mappingFlag entries) ∅
  = inr (list_to_map (reverse entries)).
Proof.
  intros Hentries.
  rewrite <- (app_nil_r (reverse entries)).
  exact (parseMappings_entries entries [] Hentries).
Qed.

(** X26. The mappings are checked in their order: the first one without
    a colon is the one that the error names. *)
Theorem parseMappings_invalid (good : list string) (bad : string)
    (rest : list string) (dbMapping : gmap string string) :
  Forall (fun mapping => Strings.Contains mapping ":" = true) good ->
  Strings.Contains bad ":" = false ->
  parseMappings (good ++ bad :: rest)%list dbMapping
  = inl ("invalid database mapping format: " ++ bad
         ++ " (expected filepath:dbname)").
Proof.
  intros Hgood Hbad. revert dbMapping.
  induction Hgood as [|mapping good Hcolon _ IH]; intros dbMapping.
  - by apply parseMappings_no_colon.
  - destruct (Contains_colon _ Hcolon) as (x & y & Hx & ->).
    cbn [app]. rewrite parseMappings_entry by done. apply IH.
Qed.


(** X28. The schema that the command hands to the repair always has a
    name and a description: the ones of the flags, or else the ones that
    [MergeSchemas] uses without a configuration. *)
Theorem mergeCmd_named (flags : mergeFlags.t) (args : list string)
    (config : MergeConfig.t) (merged : Schema.t) (stats : MergeStats.t) :
  mergeCmdConfig flags args = inr config ->
  MergeSchemas LoadSchemaFromJSON Repair rangeOrder args (Some config)
  = inr (merged, stats) ->
  exists before,
    Repair before = inr merged
    /\ Schema.Name before <> ""
    /\ Schema.Desc before <> ""
    /\ Schema.Name before
       = (if String.eqb (mergeFlags.mergedName flags) ""
          then MergeConfig.Name (defaultConfig args)
          else mergeFlags.mergedName flags)
    /\ Schema.Desc before
       = (if String.eqb (mergeFlags.mergedDesc flags) ""
          then MergeConfig.Description (defaultConfig args)
          else mergeFlags.mergedDesc flags).
Proof.
  intros Hconfig Hmerge.
  destruct (MergeSchemas_before LoadSchemaFromJSON Repair rangeOrder _ _ _ _
              Hmerge) as (before & Hrepair & Hname & Hdesc & _).
  exists before. split; [done|]. rewrite Hname, Hdesc. cbn [default].
  revert Hconfig.
  unfold mergeCmdConfig.
  destruct (length args <? 2)%nat; [done|].
  destruct (String.eqb (mergeFlags.outputFile flags) ""); [done|].
  destruct (parseMappings _ _) as [err|dbMapping]; [done|].
  intros [= <-]. cbn [MergeConfig.Name MergeConfig.Description defaultConfig].
  destruct (String.eqb_spec (mergeFlags.mergedName flags) "");
    destruct (String.eqb_spec (mergeFlags.mergedDesc flags) "");
    repeat split; try done; by rewrite append_cons.
Qed.

Lemma mergeCmdConfig_flagDefaults (outputFile : string) (args : list string) :
  2 <= length args -> outputFile <> "" ->
  mergeCmdConfig (flagDefaults outputFile) args = inr (defaultConfig args).
Proof.
  intros Hfiles Hout. unfold mergeCmdConfig, flagDefaults.
  cbn [mergeFlags.outputFile mergeFlags.mergedName mergeFlags.mergedDesc
       mergeFlags.defaultSchema mergeFlags.useBrackets
       mergeFlags.extractViewRelations mergeFlags.dbMappings].
  destruct (Nat.ltb_spec (length args) 2) as [Hfew|_]; [lia|].
  by destruct (String.eqb_spec outputFile "").
Qed.

(** X29. With the flags as [init] declares them, the command merges as
    [MergeSchemas] does when it is given no configuration. *)
Theorem mergeCmd_defaults (outputFile : string) (args : list string) :
  2 <= length args -> outputFile <> "" ->
  exists config,
    mergeCmdConfig (flagDefaults outputFile) args = inr config
    /\ MergeSchemas LoadSchemaFromJSON Repair rangeOrder args (Some config)
       = MergeSchemas LoadSchemaFromJSON Repair rangeOrder args None.
Proof.
  intros Hfiles Hout. exists (defaultConfig args).
  split; [by apply mergeCmdConfig_flagDefaults|done].
Qed.
End Command.

Lemma parseMappings_first_colon_witness :
  parseMappings
    (map mappingFlag
       [("db1.json", "DV"); ("db2.json", "DM:x"); ("db1.json", "STAGE")]) ∅
  = inr (list_to_map
           (reverse
              [("db1.json", "DV"); ("db2.json", "DM:x"); ("db1.json", "STAGE")]))%string.
Proof.
  apply parseMappings_first_colon.
  repeat (apply Forall_cons; split; [reflexivity|]). by apply Forall_nil_2.
Defined.

Lemma parseMappings_invalid_witness :
  parseMappings (["db1.json:DV"] ++ "db2.json" :: ["db3:X"])%list ∅
  = inl ("invalid database mapping format: " ++ "db2.json"
         ++ " (expected filepath:dbname)")%string.
Proof.
  apply parseMappings_invalid; [|reflexivity].
  apply Forall_cons. split; [reflexivity|by apply Forall_nil_2].
Defined.

Lemma mergeCmd_named_witness :
  exists config merged stats,
    mergeCmdConfig (flagDefaults "combined.json")
      ["dv_schema.json"; "dm_schema.json"] = inr config
    /\ MergeSchemas twoDocuments inr map_to_list
         ["dv_schema.json"; "dm_schema.json"] (Some config)
       = inr (merged, stats)
    /\ exists before,
         @inr error Schema.t before = inr merged
         /\ Schema.Name before <> ""%string
         /\ Schema.Desc before <> ""%string.
Proof.
  destruct (mergeCmdConfig (flagDefaults "combined.json")
              ["dv_schema.json"; "dm_schema.json"]) as [err|config] eqn:Hconfig;
    [by vm_compute in Hconfig|].
  destruct (MergeSchemas twoDocuments inr map_to_list
              ["dv_schema.json"; "dm_schema.json"] (Some config))
    as [err|[merged stats]] eqn:Hmerge.
  { injection Hconfig as <-. by vm_compute in Hmerge. }
  exists config, merged, stats. split; [done|]. split; [done|].
  destruct (mergeCmd_named twoDocuments inr map_to_list
              (flagDefaults "combined.json")
              ["dv_schema.json"; "dm_schema.json"] config merged stats
              Hconfig Hmerge) as (before & Hrepair & Hname & Hdesc & _).
  exists before. by repeat split.
Defined.

Lemma mergeCmd_defaults_witness :
  exists config,
    mergeCmdConfig (flagDefaults "combined.json")
      ["dv_schema.json"; "dm_schema.json"] = inr config
    /\ MergeSchemas twoDocuments inr map_to_list
         ["dv_schema.json"; "dm_schema.json"] (Some config)
       = MergeSchemas twoDocuments inr map_to_list
           ["dv_schema.json"; "dm_schema.json"] None.
Proof.
  apply (mergeCmd_defaults twoDocuments inr map_to_list "combined.json"
           ["dv_schema.json"; "dm_schema.json"]); [cbn; lia|done].
Defined.

(** ** Standardization and validation *)

Section StandardizedDocument.
Local Open Scope string_scope.

Lemma StandardizeTableName_own_database name defaultDB defaultSchema useBrackets :
  let parsedDB := QualifiedName.Database (ParseQualifiedName name) in
  StandardizeTableName name (if String.eqb parsedDB "" then defaultDB else parsedDB)
    defaultSchema useBrackets
  = StandardizeTableName name defaultDB defaultSchema useBrackets.
Proof.
  cbn zeta. unfold StandardizeTableName.
  destruct (String.eqb name ""); [done|].
  by destruct (String.eqb (QualifiedName.Database (ParseQualifiedName name)) "")
    eqn:Hdb; rewrite ?Hdb.
Qed.

Lemma updateRelation_names dbPrefix schemaName useBrackets relation :
  let updated := updateRelation dbPrefix schemaName useBrackets relation in
  Table.Name (Relation.Table updated)
  = StandardizeTableName (Table.Name (Relation.Table relation)) dbPrefix
      schemaName useBrackets
  /\ Table.Name (Relation.ParentTable updated)
     = StandardizeTableName (Table.Name (Relation.ParentTable relation)) dbPrefix
         schemaName useBrackets.
Proof.
  cbn zeta. unfold updateRelation. cbn zeta.
  cbn [Relation.Table Relation.ParentTable Table.Name Table.named].
  by rewrite !StandardizeTableName_own_database.
Qed.

Lemma updateTableNames_names tables dbPrefix schemaName useBrackets name :
  name ∈ map Table.Name tables ->
  StandardizeTableName name dbPrefix schemaName useBrackets
  ∈ map Table.Name (updateTableNames tables dbPrefix schemaName useBrackets).
Proof.
  unfold updateTableNames. rewrite map_map.
  intros (table & -> & Hin)%list_elem_of_fmap.
  apply list_elem_of_fmap. by exists table.
Qed.

(** X30. Standardization keeps a document whole: when both ends of every
    relation are tables of the document, validation finds no broken
    relation among its standardized tables and relations. *)
Theorem updateRelations_valid (setOrder : SetOrder) (doc : Schema.t)
    (dbPrefix schemaName : string) (useBrackets : bool) :
  (forall relation, relation ∈ Schema.Relations doc ->
     Table.Name (Relation.Table relation) ∈ map Table.Name (Schema.Tables doc)
     /\ Table.Name (Relation.ParentTable relation)
          ∈ map Table.Name (Schema.Tables doc)) ->
  ValidationResults.broken_relations
    (ValidateMergedSchema setOrder
       (Schema.mk (Schema.Name doc) (Schema.Desc doc)
          (updateTableNames (Schema.Tables doc) dbPrefix schemaName useBrackets)
          (updateRelations (Schema.Relations doc) dbPrefix schemaName
             useBrackets)
          (Schema.Functions doc) (Schema.Driver_ doc)))
  = [].
Proof.
  intros Hclosed.
  destruct (ValidationResults.broken_relations _) as [|b rest] eqn:Hbroken;
    [done|].
  assert (b ∈ b :: rest) as Hb by left. rewrite <- Hbroken in Hb.
  apply broken_relations_elem in Hb as (updated & Hin & Hmissing & Hend & _).
  cbn [Schema.Tables Schema.Relations] in Hin, Hmissing.
  unfold updateRelations in Hin.
  apply list_elem_of_fmap in Hin as (relation & -> & Hin).
  destruct (Hclosed _ Hin) as [Hchild Hparent].
  destruct (updateRelation_names dbPrefix schemaName useBrackets relation)
    as [Hchild' Hparent'].
  destruct Hmissing. destruct Hend as [-> | ->].
  - rewrite Hchild'. by apply updateTableNames_names.
  - rewrite Hparent'. by apply updateTableNames_names.
Qed.
End StandardizedDocument.

Lemma updateRelations_valid_witness :
  ValidationResults.broken_relations
    (ValidateMergedSchema elements
       (Schema.mk (Schema.Name closedDocument) (Schema.Desc closedDocument)
          (updateTableNames (Schema.Tables closedDocument) "DV" "dbo" true)
          (updateRelations (Schema.Relations closedDocument) "DV" "dbo" true)
          (Schema.Functions closedDocument) (Schema.Driver_ closedDocument)))
  = [].
Proof.
  apply updateRelations_valid.
  intros relation ->%list_elem_of_singleton.
  split; [by left|right; by left].
Defined.
